(** * detect-hallucination: the Responder (ask_model.py) and the Validator
      (validator.py), embedded in Rocq.

    Python values are modelled as follows.
    - [str] is [string]; a character is an 8-bit code point.
    - A JSON object read from or written to a file is a [gmap string value].
    - A float that the program computes as [2.0 * m / n] from two integers is
      kept as the exact rational [2 * m # n] ([Q]).  The IEEE quotient of two
      integers below 2^53 is the correctly rounded exact quotient and rounding
      is monotone, so for inputs whose lengths add up to less than 2^53 the
      comparison [similarity < 0.8] of the program and the comparison
      [Qlt q (8 # 10)] of the model agree, and so does equality with [1.0].
    - The model endpoint is an oracle [api] from the history of queries and
      the current query to an outcome; the log, the standard output and the
      three JSON files are fields of an explicit [world]. *)

From Stdlib Require Import QArith.
From stdpp Require Import gmap strings list sorting.

Local Open Scope nat_scope.

(** ** [difflib.SequenceMatcher(None, a, b).ratio()]

    [validator.py] calls the standard library's [SequenceMatcher] with
    [isjunk = None] and the default [autojunk = True].  The definitions below
    follow [Lib/difflib.py] of CPython method by method. *)
Module Difflib.
Section SequenceMatcher.
Context {A : Type} `{Countable A}.

(** [Match(a, b, size)], a named tuple. *)
Definition Match : Type := nat * nat * nat.
Definition size (m : Match) : nat := m.2.

(** _chain_b, first loop: [b2j.setdefault(elt, []).append(i)] for every
    [i, elt] of [enumerate(b)]. *)
Definition setdefault_append (b2j : gmap A (list nat)) (ie : nat * A)
  : gmap A (list nat) :=
  <[ie.2 := default [] (b2j !! ie.2) ++ [ie.1]]> b2j.

Definition index_elements (b : list A) : gmap A (list nat) :=
  fold_left setdefault_append (imap pair b) ∅.

(** With [isjunk = None] the junk loop is skipped and [bjunk] stays empty. *)
Definition bjunk : gset A := ∅.
Definition isbjunk (x : A) : bool := bool_decide (x ∈ bjunk).

(** _chain_b, last part: when [len(b) >= 200], the elements that occur more
    than [len(b) // 100 + 1] times are popular and are deleted from [b2j]. *)
Definition ntest (b : list A) : nat := length b / 100 + 1.

Definition chain_b (b : list A) : gmap A (list nat) :=
  let b2j := index_elements b in
  if 200 <=? length b
  then filter (λ kv, ¬ (ntest b < length kv.2)) b2j
  else b2j.

(** [j2len.get(j-1, 0)]: the key [-1] is never in the dictionary. *)
Definition j2lenget (j2len : gmap nat nat) (j : nat) : nat :=
  match j with
  | 0 => 0
  | S j' => default 0 (j2len !! j')
  end.

(** find_longest_match, inner loop [for j in b2j.get(a[i], nothing)].
    Python's [i-k+1] is written [i + 1 - k]: [k] never exceeds [i + 1]. *)
Fixpoint scan_row (blo bhi i : nat) (j2len : gmap nat nat) (js : list nat)
    (newj2len : gmap nat nat) (best : Match) : gmap nat nat * Match :=
  match js with
  | [] => (newj2len, best)
  | j :: js' =>
      if j <? blo then scan_row blo bhi i j2len js' newj2len best
      else if bhi <=? j then (newj2len, best)
      else
        let k := j2lenget j2len j + 1 in
        let best' := if size best <? k then (i + 1 - k, j + 1 - k, k) else best in
        scan_row blo bhi i j2len js' (<[j := k]> newj2len) best'
  end.

(** One iteration of [for i in range(alo, ahi)].  [a !! i] is always
    defined there, because [ahi <= len(a)]. *)
Definition scan_step (a : list A) (b2j : gmap A (list nat)) (blo bhi : nat)
    (st : gmap nat nat * Match) (i : nat) : gmap nat nat * Match :=
  let js := match a !! i with
            | Some x => default [] (b2j !! x)
            | None => []
            end in
  scan_row blo bhi i st.1 js ∅ st.2.

Definition scan (a : list A) (b2j : gmap A (list nat)) (alo ahi blo bhi : nat)
  : gmap nat nat * Match :=
  fold_left (scan_step a b2j blo bhi) (seq alo (ahi - alo)) (∅, (alo, blo, 0)).

(** [a[i] == b[j]] for indices the loop guards keep in range. *)
Definition same_elt (a b : list A) (i j : nat) : bool :=
  match a !! i, b !! j with
  | Some x, Some y => bool_decide (x = y)
  | _, _ => false
  end.

Definition junk_at (b : list A) (j : nat) : bool :=
  match b !! j with
  | Some y => isbjunk y
  | None => false
  end.

(** [while besti > alo and bestj > blo and (not) isbjunk(b[bestj-1]) and
    a[besti-1] == b[bestj-1]]; [junk] selects the third conjunct. *)
Fixpoint extend_left (a b : list A) (junk : bool) (alo blo : nat)
    (besti bestj bestsize : nat) {struct besti} : Match :=
  match besti, bestj with
  | S i', S j' =>
      if (alo <? besti) && (blo <? bestj) && Bool.eqb (junk_at b j') junk
         && same_elt a b i' j'
      then extend_left a b junk alo blo i' j' (S bestsize)
      else (besti, bestj, bestsize)
  | _, _ => (besti, bestj, bestsize)
  end.

(** [while besti+bestsize < ahi and bestj+bestsize < bhi and ...:
    bestsize += 1].  [room] counts the iterations still possible,
    [ahi - (besti + bestsize)]; at [room = 0] the first conjunct is false. *)
Fixpoint extend_right (a b : list A) (junk : bool) (ahi bhi besti bestj : nat)
    (room bestsize : nat) {struct room} : nat :=
  match room with
  | 0 => bestsize
  | S room' =>
      if (besti + bestsize <? ahi) && (bestj + bestsize <? bhi)
         && Bool.eqb (junk_at b (bestj + bestsize)) junk
         && same_elt a b (besti + bestsize) (bestj + bestsize)
      then extend_right a b junk ahi bhi besti bestj room' (S bestsize)
      else bestsize
  end.

Definition extend (a b : list A) (junk : bool) (alo ahi blo bhi : nat)
    (m : Match) : Match :=
  let '(besti, bestj, bestsize) := extend_left a b junk alo blo m.1.1 m.1.2 m.2 in
  (besti, bestj,
   extend_right a b junk ahi bhi besti bestj (ahi - (besti + bestsize)) bestsize).

Definition find_longest_match (a b : list A) (b2j : gmap A (list nat))
    (alo ahi blo bhi : nat) : Match :=
  let best := (scan a b2j alo ahi blo bhi).2 in
  extend a b true alo ahi blo bhi (extend a b false alo ahi blo bhi best).

(** get_matching_blocks, the [while queue] loop.  The queue is a stack whose
    top is the head of the list; [None] is returned when [fuel] runs out. *)
Definition Range : Type := nat * nat * nat * nat.

Fixpoint blocks_loop (a b : list A) (b2j : gmap A (list nat)) (fuel : nat)
    (queue : list Range) (matching_blocks : list Match) : option (list Match) :=
  match queue with
  | [] => Some matching_blocks
  | (alo, ahi, blo, bhi) :: queue' =>
      match fuel with
      | 0 => None
      | S fuel' =>
          let x := find_longest_match a b b2j alo ahi blo bhi in
          let '(i, j, k) := x in
          if k =? 0 then blocks_loop a b b2j fuel' queue' matching_blocks
          else
            let left := if (alo <? i) && (blo <? j) then [(alo, i, blo, j)] else [] in
            let right := if (i + k <? ahi) && (j + k <? bhi)
                         then [(i + k, ahi, j + k, bhi)] else [] in
            blocks_loop a b b2j fuel' (right ++ left ++ queue') (matching_blocks ++ [x])
      end
  end.

(** Tuples sort lexicographically. *)
Definition match_le (x y : Match) : Prop :=
  x.1.1 < y.1.1 ∨ (x.1.1 = y.1.1 ∧ (x.1.2 < y.1.2 ∨ (x.1.2 = y.1.2 ∧ x.2 ≤ y.2))).

#[export] Instance match_le_dec (x y : Match) : Decision (match_le x y).
Proof. unfold match_le. apply _. Defined.

(** The loop that merges adjacent blocks. *)
Fixpoint collapse (blocks : list Match) (cur : Match) (non_adjacent : list Match)
  : Match * list Match :=
  match blocks with
  | [] => (cur, non_adjacent)
  | (i2, j2, k2) :: rest =>
      let '(i1, j1, k1) := cur in
      if (i1 + k1 =? i2) && (j1 + k1 =? j2)
      then collapse rest (i1, j1, k1 + k2) non_adjacent
      else collapse rest (i2, j2, k2)
             (if k1 =? 0 then non_adjacent else non_adjacent ++ [(i1, j1, k1)])
  end.

(** Every pass of the queue loop that finds a block removes at least one
    element of [a] from the ranges still queued, so [2 * len(a) + 1] passes
    are enough ([blocks_loop_total] below). *)
Definition queue_fuel (a : list A) : nat := 2 * length a + 1.

Definition raw_blocks (a b : list A) : list Match :=
  default [] (blocks_loop a b (chain_b b) (queue_fuel a) [(0, length a, 0, length b)] []).

Definition get_matching_blocks (a b : list A) : list Match :=
  let sorted := merge_sort match_le (raw_blocks a b) in
  let '((i1, j1, k1), non_adjacent) := collapse sorted (0, 0, 0) [] in
  (if k1 =? 0 then non_adjacent else non_adjacent ++ [(i1, j1, k1)])
    ++ [(length a, length b, 0)].

Definition matches (a b : list A) : nat :=
  foldr (λ m acc, size m + acc) 0 (get_matching_blocks a b).

(** [_calculate_ratio(matches, length)]. *)
Definition calculate_ratio (matches length : nat) : Q :=
  if length =? 0 then 1%Q
  else (Z.of_nat (2 * matches) # Pos.of_nat length)%Q.

Definition ratio (a b : list A) : Q :=
  calculate_ratio (matches a b) (length a + length b).

End SequenceMatcher.
End Difflib.

(** ** Python values, exceptions and the world *)

Local Open Scope string_scope.
Local Open Scope nat_scope.
Local Open Scope list_scope.

(** A JSON value as the two programs use it: [None] or a [str]. *)
Inductive value : Type :=
| VNone
| VStr (s : string).

#[export] Instance value_eq_dec : EqDecision value.
Proof. solve_decision. Defined.

(** Truth value of [if v:]. *)
Definition truthy (v : value) : bool :=
  match v with
  | VNone => false
  | VStr s => negb (String.eqb s EmptyString)
  end.

(** [f"{v}"]. *)
Definition fmt (v : value) : string :=
  match v with
  | VNone => "None"
  | VStr s => s
  end.

Abbreviation dict := (gmap string value).

Inductive exn : Type :=
| ValueError (msg : string)
| FileNotFoundError (file : string)
| AttributeError (msg : string)
| TypeError (msg : string)
| KeyError (key : string)
| ZeroDivisionError (msg : string)
| Exception (msg : string).

(** [str(e)]. *)
Definition exn_str (e : exn) : string :=
  match e with
  | ValueError msg | AttributeError msg | TypeError msg
  | ZeroDivisionError msg | Exception msg => msg
  | FileNotFoundError file => "[Errno 2] No such file or directory: '" +:+ file +:+ "'"
  | KeyError key => "'" +:+ key +:+ "'"
  end.

Inductive result (A : Type) : Type :=
| Ok (a : A)
| Raise (e : exn).
Arguments Ok {A} a.
Arguments Raise {A} e.

(** [client.chat.completions.create(model, messages, temperature)]. *)
Record query : Type := {
  q_model : string;
  q_system : string;
  q_user : string;
  q_temperature : Q
}.

(** What the [try] body around a model call can do: deliver
    [response.choices[0].message.content] or raise. *)
Inductive api_outcome : Type :=
| Reply (content : string)
| Failure (e : exn).

Inductive level : Type := INFO | ERROR.

(** A line of standard output; the numbers of the summary are kept as
    numbers, their formatting ([:.2f]) is not modelled. *)
Inductive out_line : Type :=
| Text (s : string)
| TotalLine (total : nat)
| HallucinationsLine (hallucinations : nat)
| AccuracyLine (percent : Q).

(** [{question, answer}], an element of [kb['qa_pairs']] of a well-formed
    kb.json. *)
Record qa_pair : Type := {
  qa_question : string;
  qa_answer : string
}.

Record world : Type := {
  dotenv_key : option string;               (* OPENAI_API_KEY of .env *)
  kb_json : option (list qa_pair);          (* kb.json, [None]: no such file *)
  responses_json : option (list dict);      (* responses.json *)
  validation_results_json : option (list dict);
  calls : list query;                       (* model queries issued so far *)
  log : list (level * string);              (* run.log *)
  stdout : list out_line
}.

(** ** The monad of the two scripts: state and exceptions *)

Definition M (A : Type) : Type := world → result A * world.

#[export] Instance M_ret : MRet M := λ A a w, (Ok a, w).
#[export] Instance M_bind : MBind M := λ A B f c w,
  match c w with
  | (Ok a, w') => f a w'
  | (Raise e, w') => (Raise e, w')
  end.

Definition raise {A : Type} (e : exn) : M A := λ w, (Raise e, w).

(** [try: body except Exception as e: handler(e)]. *)
Definition try_except {A : Type} (body : M A) (handler : exn → M A) : M A := λ w,
  match body w with
  | (Ok a, w') => (Ok a, w')
  | (Raise e, w') => handler e w'
  end.

Definition lift {A : Type} (r : result A) : M A := λ w, (r, w).

Definition logging (lv : level) (msg : string) : M unit := λ w,
  (Ok (), {| dotenv_key := dotenv_key w; kb_json := kb_json w;
             responses_json := responses_json w;
             validation_results_json := validation_results_json w;
             calls := calls w; log := log w ++ [(lv, msg)]; stdout := stdout w |}).

Definition print (l : out_line) : M unit := λ w,
  (Ok (), {| dotenv_key := dotenv_key w; kb_json := kb_json w;
             responses_json := responses_json w;
             validation_results_json := validation_results_json w;
             calls := calls w; log := log w; stdout := stdout w ++ [l] |}).

Definition write_responses (rs : list dict) : M unit := λ w,
  (Ok (), {| dotenv_key := dotenv_key w; kb_json := kb_json w;
             responses_json := Some rs;
             validation_results_json := validation_results_json w;
             calls := calls w; log := log w; stdout := stdout w |}).

Definition write_validation_results (rs : list dict) : M unit := λ w,
  (Ok (), {| dotenv_key := dotenv_key w; kb_json := kb_json w;
             responses_json := responses_json w;
             validation_results_json := Some rs;
             calls := calls w; log := log w; stdout := stdout w |}).

(** [for x in xs: acc = body(x, acc)]. *)
Fixpoint for_each {X R : Type} (xs : list X) (body : X → R → M R) (acc : R) : M R :=
  match xs with
  | [] => mret acc
  | x :: xs' => acc' ← body x acc; for_each xs' body acc'
  end.

(** ** Built-in string methods on 8-bit code points *)

Definition chars (s : string) : list Ascii.ascii := String.list_ascii_of_string s.

Definition lower_char (c : Ascii.ascii) : Ascii.ascii :=
  let n := Ascii.nat_of_ascii c in
  if ((65 <=? n) && (n <=? 90)) || ((192 <=? n) && (n <=? 222) && negb (n =? 215))
  then Ascii.ascii_of_nat (n + 32)
  else c.

(** [s.lower()]. *)
Definition lower (s : string) : string :=
  String.string_of_list_ascii (map lower_char (chars s)).

Definition isspace (c : Ascii.ascii) : bool :=
  let n := Ascii.nat_of_ascii c in
  ((9 <=? n) && (n <=? 13)) || ((28 <=? n) && (n <=? 32)) || (n =? 133) || (n =? 160).

Fixpoint lstrip (cs : list Ascii.ascii) : list Ascii.ascii :=
  match cs with
  | c :: cs' => if isspace c then lstrip cs' else cs
  | [] => []
  end.

(** [s.strip()]. *)
Definition strip (s : string) : string :=
  String.string_of_list_ascii (rev (lstrip (rev (lstrip (chars s))))).

(** [needle in s]. *)
Definition contains (needle s : string) : bool :=
  match String.index 0 needle s with
  | Some _ => true
  | None => false
  end.

Definition nl : string := String (Ascii.ascii_of_nat 10) EmptyString.
Definition dashes : string := "--------------------------------------------------".

(** ** The model endpoint *)

Definition get_dotenv_key : M (option string) := λ w, (Ok (dotenv_key w), w).

(** [not self.api_key]. *)
Definition key_missing (k : option string) : bool :=
  match k with
  | None => true
  | Some s => String.eqb s EmptyString
  end.

(** One call of [self.client.chat.completions.create] followed by
    [response.choices[0].message.content]: the query is issued, then the
    oracle's outcome is delivered or raised. *)
Definition create (api : list query → query → api_outcome) (q : query) : M string := λ w,
  let w' := {| dotenv_key := dotenv_key w; kb_json := kb_json w;
               responses_json := responses_json w;
               validation_results_json := validation_results_json w;
               calls := calls w ++ [q]; log := log w; stdout := stdout w |} in
  match api (calls w) q with
  | Reply content => (Ok content, w')
  | Failure e => (Raise e, w')
  end.

(** ** ask_model.py *)
Module AskModel.
Section ModelInteractor.
Variable api : list query → query → api_outcome.

Definition load_knowledge_base : M (list qa_pair) := λ w,
  match kb_json w with
  | Some kb => (Ok kb, w)
  | None =>
      (Raise (Exception "kb.json not found. Please ensure the knowledge base file exists."), w)
  end.

(** [ModelInteractor()]; the value is [self.kb['qa_pairs']]. *)
Definition init : M (list qa_pair) :=
  api_key ← get_dotenv_key;
  if key_missing api_key
  then raise (ValueError "OpenAI API key not found in .env file")
  else load_knowledge_base.

Definition get_model_response (question : string) : M value :=
  try_except
    (content ← create api
       {| q_model := "gpt-4";
          q_system := "You are a helpful assistant. Answer questions directly and concisely.";
          q_user := question;
          q_temperature := 1 # 10 |};
     mret (VStr (strip content)))
    (λ e, logging ERROR ("Error getting model response: " +:+ exn_str e);;
          mret VNone).

Definition edge_cases : list string :=
  [ "What is the capital of the ancient Atlantis?";
    "How many atoms are in a human thought?";
    "What color is the number 7?";
    "What is the sound of one hand clapping?";
    "Can you explain quantum physics to a goldfish?" ].

Definition kb_body (qa : qa_pair) (results : list dict) : M (list dict) :=
  let question := qa_question qa in
  response ← get_model_response question;
  let results' := results ++
    [ ({[ "question" := VStr question;
          "model_response" := response;
          "type" := VStr "kb_question";
          "kb_answer" := VStr (qa_answer qa) ]} : dict) ] in
  logging INFO ("KB Question: " +:+ question);;
  logging INFO ("Model Response: " +:+ fmt response);;
  logging INFO ("KB Answer: " +:+ qa_answer qa);;
  logging INFO dashes;;
  mret results'.

Definition edge_body (question : string) (results : list dict) : M (list dict) :=
  response ← get_model_response question;
  let results' := results ++
    [ ({[ "question" := VStr question;
          "model_response" := response;
          "type" := VStr "edge_case";
          "kb_answer" := VNone ]} : dict) ] in
  logging INFO ("Edge Case Question: " +:+ question);;
  logging INFO ("Model Response: " +:+ fmt response);;
  logging INFO dashes;;
  mret results'.

Definition process_questions (kb : list qa_pair) : M (list dict) :=
  results ← for_each kb kb_body [];
  for_each edge_cases edge_body results.

Definition main : M unit :=
  try_except
    (kb ← init;
     results ← process_questions kb;
     write_responses results;;
     print (Text "Processing complete. Check run.log for details."))
    (λ e, logging ERROR ("Error in main execution: " +:+ exn_str e);;
          print (Text ("An error occurred: " +:+ exn_str e))).

End ModelInteractor.
End AskModel.

(** Exit status of [python script.py]: 0 when [main()] returns, 1 when an
    exception leaves it. *)
Definition exit_status (main : M unit) (w : world) : nat :=
  match main w with
  | (Ok _, _) => 0
  | (Raise _, _) => 1
  end.

(** ** validator.py *)
Module Validator.

Definition VALID : string := "VALID".
Definition RETRY_DIVERGENT : string := "RETRY: answer differs from KB".
Definition RETRY_OUT_OF_DOMAIN : string := "RETRY: out-of-domain".

(** The literal [0.8]. *)
Definition threshold : Q := 8 # 10.

(** The dictionary [validate_response] returns; its three keys are fixed. *)
Record validation : Type := {
  status : string;
  similarity : option Q;
  retry_response : value
}.

Definition no_lower : exn := AttributeError "'NoneType' object has no attribute 'lower'".

(** [v.lower()]. *)
Definition value_lower (v : value) : result string :=
  match v with
  | VStr s => Ok (lower s)
  | VNone => Raise no_lower
  end.

Definition string_similarity (str1 str2 : value) : result Q :=
  match value_lower str1 with
  | Raise e => Raise e
  | Ok a =>
      match value_lower str2 with
      | Raise e => Raise e
      | Ok b => Ok (Difflib.ratio (chars a) (chars b))
      end
  end.

(** [x < y] on the scores. *)
Definition Qltb (x y : Q) : bool := negb (Qle_bool y x).

Section HallucinationValidator.
Variable api : list query → query → api_outcome.

Definition load_knowledge_base : M (list qa_pair) := λ w,
  match kb_json w with
  | Some kb => (Ok kb, w)
  | None => (Raise (FileNotFoundError "kb.json"), w)
  end.

Definition load_responses : M (list dict) := λ w,
  match responses_json w with
  | Some rs => (Ok rs, w)
  | None => (Raise (FileNotFoundError "responses.json"), w)
  end.

(** [HallucinationValidator()]; the value is [self.responses]. *)
Definition init : M (list dict) :=
  api_key ← get_dotenv_key;
  if key_missing api_key
  then raise (ValueError "OpenAI API key not found in .env file")
  else load_knowledge_base;; load_responses.

Definition retry_prompt (question kb_answer : value) : string :=
  if truthy kb_answer
  then "Please answer this question accurately. The correct answer should be similar to: "
         +:+ fmt kb_answer +:+ nl +:+ "Question: " +:+ fmt question
  else "This question may be out of domain. If you don't have factual information to answer it, please explicitly say so."
         +:+ nl +:+ "Question: " +:+ fmt question.

Definition retry_question (question kb_answer : value) : M value :=
  try_except
    (content ← create api
       {| q_model := "gpt-4";
          q_system := "You are a careful assistant that prioritizes accuracy over speculation.";
          q_user := retry_prompt question kb_answer;
          q_temperature := 1 # 10 |};
     mret (VStr (strip content)))
    (λ e, logging ERROR ("Error in retry: " +:+ exn_str e);;
          mret (VStr "Error during retry")).

Definition validate_response (question model_response kb_answer : value)
  : M validation :=
  if truthy kb_answer
  then
    sim ← lift (string_similarity model_response kb_answer);
    if Qltb sim threshold
    then
      retry ← retry_question question kb_answer;
      mret {| status := RETRY_DIVERGENT; similarity := Some sim;
              retry_response := retry |}
    else
      mret {| status := VALID; similarity := Some sim; retry_response := VNone |}
  else
    retry ← retry_question question VNone;
    mret {| status := RETRY_OUT_OF_DOMAIN; similarity := None;
            retry_response := retry |}.

(** [response[key]]. *)
Definition getitem (d : dict) (key : string) : M value :=
  match d !! key with
  | Some v => mret v
  | None => raise (KeyError key)
  end.

(** [response.get(key)]. *)
Definition get (d : dict) (key : string) : value := default VNone (d !! key).

Definition validate_body (response : dict) (validation_results : list dict)
  : M (list dict) :=
  question ← getitem response "question";
  model_response ← getitem response "model_response";
  res ← validate_response question model_response (get response "kb_answer");
  let validation_entry : dict :=
    {[ "question" := question;
       "original_response" := model_response;
       "validation_result" := VStr (status res);
       "retry_response" := retry_response res ]} in
  let validation_results' := validation_results ++ [validation_entry] in
  logging INFO ("Question: " +:+ fmt question);;
  logging INFO ("Original Response: " +:+ fmt model_response);;
  logging INFO ("Validation Status: " +:+ status res);;
  (if truthy (retry_response res)
   then logging INFO ("Retry Response: " +:+ fmt (retry_response res))
   else mret ());;
  logging INFO dashes;;
  mret validation_results'.

Definition validate_all_responses (responses : list dict) : M (list dict) :=
  for_each responses validate_body [].

(** ['RETRY' in r['validation_result']]. *)
Definition is_retry (r : dict) : result bool :=
  match r !! "validation_result" with
  | Some (VStr s) => Ok (contains "RETRY" s)
  | Some VNone => Raise (TypeError "argument of type 'NoneType' is not iterable")
  | None => Raise (KeyError "validation_result")
  end.

(** [sum(1 for r in results if 'RETRY' in r['validation_result'])]. *)
Fixpoint count_retry (results : list dict) : result nat :=
  match results with
  | [] => Ok 0
  | r :: rest =>
      match is_retry r with
      | Raise e => Raise e
      | Ok hit =>
          match count_retry rest with
          | Raise e => Raise e
          | Ok n => Ok (if hit then 1 + n else n)
          end
      end
  end.

(** [((total-hallucinations)/total)*100]. *)
Definition accuracy (total hallucinations : nat) : result Q :=
  if total =? 0 then Raise (ZeroDivisionError "division by zero")
  else Ok (((Z.of_nat total - Z.of_nat hallucinations) # Pos.of_nat total) * 100)%Q.

Definition main : M unit :=
  try_except
    (responses ← init;
     results ← validate_all_responses responses;
     write_validation_results results;;
     print (Text "Validation complete. Check run.log for details.");;
     let total := length results in
     hallucinations ← lift (count_retry results);
     print (Text (nl +:+ "Summary:"));;
     print (TotalLine total);;
     print (HallucinationsLine hallucinations);;
     rate ← lift (accuracy total hallucinations);
     print (AccuracyLine rate))
    (λ e, logging ERROR ("Error in main execution: " +:+ exn_str e);;
          print (Text ("An error occurred: " +:+ exn_str e))).

End HallucinationValidator.
End Validator.

(** * Properties *)

(** ** The similarity ratio *)
Module DifflibFacts.
Import Difflib.
Section Bounds.
Context {A : Type} `{Countable A}.
Implicit Types (a b : list A) (b2j : gmap A (list nat)) (m : Match).

(** A block lies inside the range it was searched in. *)
Definition in_range (alo ahi blo bhi : nat) (m : Match) : Prop :=
  alo ≤ m.1.1 ∧ blo ≤ m.1.2 ∧ m.1.1 + m.2 ≤ ahi ∧ m.1.2 + m.2 ≤ bhi.

(** [j2len] after [rows] rows of the range have been scanned. *)
Definition row_ok (alo blo bhi rows : nat) (j2len : gmap nat nat) : Prop :=
  ∀ j k, j2len !! j = Some k → blo ≤ j < bhi ∧ k + alo ≤ rows ∧ k + blo ≤ j + 1.

Lemma j2lenget_bound alo blo bhi i j2len j :
  row_ok alo blo bhi i j2len → alo ≤ i → blo ≤ j →
  j2lenget j2len j + 1 + alo ≤ i + 1 ∧ j2lenget j2len j + 1 + blo ≤ j + 1.
Proof.
  intros Hrow Hi Hj. destruct j as [|j']; simpl; [lia|].
  destruct (j2len !! j') as [k|] eqn:E; simpl; [|lia].
  destruct (Hrow _ _ E) as (? & ? & ?). lia.
Qed.

Lemma scan_row_ok alo ahi blo bhi i j2len js :
  row_ok alo blo bhi i j2len → alo ≤ i < ahi →
  ∀ newj2len best,
    row_ok alo blo bhi (i + 1) newj2len → in_range alo ahi blo bhi best →
    row_ok alo blo bhi (i + 1) (scan_row blo bhi i j2len js newj2len best).1 ∧
    in_range alo ahi blo bhi (scan_row blo bhi i j2len js newj2len best).2.
Proof.
  intros Hrow Hi. induction js as [|j js IH]; intros new best Hnew Hbest; simpl; [done|].
  destruct (Nat.ltb_spec j blo); [by apply IH|].
  destruct (Nat.leb_spec bhi j); [done|].
  destruct (j2lenget_bound alo blo bhi i j2len j) as [Ha Hb]; [done|lia|done|].
  apply IH.
  - intros j0 k0. rewrite lookup_insert. case_decide; [|by apply Hnew].
    intros [= <-]. subst j0. lia.
  - destruct (Nat.ltb_spec (size best) (j2lenget j2len j + 1)); [|done].
    unfold in_range; simpl. lia.
Qed.

Lemma scan_ok a b2j alo ahi blo bhi n :
  alo + n ≤ ahi → blo ≤ bhi →
  row_ok alo blo bhi (alo + n)
    (fold_left (scan_step a b2j blo bhi) (seq alo n) (∅, (alo, blo, 0))).1 ∧
  in_range alo ahi blo bhi
    (fold_left (scan_step a b2j blo bhi) (seq alo n) (∅, (alo, blo, 0))).2.
Proof.
  intros Hn Hb. induction n as [|n IH].
  - simpl. split; [intros j k; by rewrite lookup_empty | unfold in_range; simpl; lia].
  - rewrite seq_S, fold_left_app. simpl.
    destruct IH as [IH1 IH2]; [lia|].
    unfold scan_step at 1 3.
    replace (alo + S n) with (alo + n + 1) by lia.
    apply scan_row_ok; [done|lia| |done].
    intros j k; by rewrite lookup_empty.
Qed.

Lemma extend_left_ok a b junk alo ahi blo bhi besti bestj bestsize :
  in_range alo ahi blo bhi (besti, bestj, bestsize) →
  in_range alo ahi blo bhi (extend_left a b junk alo blo besti bestj bestsize).
Proof.
  revert bestj bestsize. induction besti as [|i' IH]; intros bestj bestsize Hin; [done|].
  destruct bestj as [|j']; [done|]. simpl.
  destruct (_ && _) eqn:E; [|done].
  apply IH. rewrite !andb_true_iff in E. destruct E as [[[E1 E2] _] _].
  apply Nat.ltb_lt in E1, E2. unfold in_range in *; simpl in *. lia.
Qed.

Lemma extend_right_ok a b junk ahi bhi besti bestj room bestsize :
  besti + bestsize ≤ ahi → bestj + bestsize ≤ bhi →
  let k := extend_right a b junk ahi bhi besti bestj room bestsize in
  bestsize ≤ k ∧ besti + k ≤ ahi ∧ bestj + k ≤ bhi.
Proof.
  revert bestsize. induction room as [|room IH]; intros bestsize Ha Hb; simpl; [lia|].
  destruct (_ && _) eqn:E; [|lia].
  rewrite !andb_true_iff in E. destruct E as [[[E1 E2] _] _].
  apply Nat.ltb_lt in E1, E2.
  destruct (IH (S bestsize)) as (? & ? & ?); [lia|lia|]. lia.
Qed.

Lemma extend_ok a b junk alo ahi blo bhi m :
  in_range alo ahi blo bhi m → in_range alo ahi blo bhi (extend a b junk alo ahi blo bhi m).
Proof.
  intros Hin. unfold extend.
  pose proof (extend_left_ok a b junk alo ahi blo bhi m.1.1 m.1.2 m.2) as Hl.
  destruct (extend_left a b junk alo blo m.1.1 m.1.2 m.2) as [[i j] k].
  destruct m as [[mi mj] mk]. specialize (Hl Hin).
  unfold in_range in *; simpl in *.
  destruct (extend_right_ok a b junk ahi bhi i j (ahi - (i + k)) k) as (? & ? & ?); lia.
Qed.

Lemma find_longest_match_in_range a b b2j alo ahi blo bhi :
  alo ≤ ahi → blo ≤ bhi →
  in_range alo ahi blo bhi (find_longest_match a b b2j alo ahi blo bhi).
Proof.
  intros Ha Hb. unfold find_longest_match. do 2 apply extend_ok.
  unfold scan. apply (scan_ok a b2j alo ahi blo bhi (ahi - alo)); lia.
Qed.

Definition range_ok (r : Range) : Prop := r.1.1.1 ≤ r.1.1.2 ∧ r.1.2 ≤ r.2.

(** Passes of the queue loop still needed for the queued ranges. *)
Definition weight (queue : list Range) : nat :=
  foldr (λ r acc, 2 * (r.1.1.2 - r.1.1.1) + 1 + acc) 0 queue.

(** Elements the queued ranges can still contribute to the blocks. *)
Definition capacity (queue : list Range) : nat :=
  foldr (λ r acc, (r.1.1.2 - r.1.1.1) `min` (r.2 - r.1.2) + acc) 0 queue.

Definition total (ms : list Match) : nat := foldr (λ m acc, size m + acc) 0 ms.

Lemma total_app ms1 ms2 : total (ms1 ++ ms2) = total ms1 + total ms2.
Proof. unfold total. induction ms1 as [|m ms1 IH]; simpl; [done | rewrite IH; lia]. Qed.

Lemma weight_cons r queue :
  weight (r :: queue) = 2 * (r.1.1.2 - r.1.1.1) + 1 + weight queue.
Proof. done. Qed.

Lemma weight_app q1 q2 : weight (q1 ++ q2) = weight q1 + weight q2.
Proof. induction q1 as [|r q1 IH]; [done|]. simpl app. rewrite !weight_cons, IH. lia. Qed.

Lemma capacity_cons r queue :
  capacity (r :: queue) = (r.1.1.2 - r.1.1.1) `min` (r.2 - r.1.2) + capacity queue.
Proof. done. Qed.

Lemma capacity_app q1 q2 : capacity (q1 ++ q2) = capacity q1 + capacity q2.
Proof. induction q1 as [|r q1 IH]; [done|]. simpl app. rewrite !capacity_cons, IH. lia. Qed.

(** The two ranges pushed after a block was found. *)
Definition pushed (alo ahi blo bhi i j k : nat) : list Range :=
  (if (i + k <? ahi) && (j + k <? bhi) then [(i + k, ahi, j + k, bhi)] else [])
  ++ (if (alo <? i) && (blo <? j) then [(alo, i, blo, j)] else []).

Lemma pushed_facts alo ahi blo bhi i j k :
  in_range alo ahi blo bhi (i, j, k) → k ≠ 0 →
  Forall range_ok (pushed alo ahi blo bhi i j k) ∧
  weight (pushed alo ahi blo bhi i j k) ≤ 2 * (ahi - alo) ∧
  k + capacity (pushed alo ahi blo bhi i j k) ≤ (ahi - alo) `min` (bhi - blo).
Proof.
  unfold in_range, pushed; simpl. intros (Hi & Hj & Hik & Hjk) Hk.
  destruct (Nat.ltb_spec (i + k) ahi); destruct (Nat.ltb_spec (j + k) bhi);
    destruct (Nat.ltb_spec alo i); destruct (Nat.ltb_spec blo j); simpl;
    rewrite ?Forall_cons, ?Forall_nil; unfold range_ok; simpl;
    rewrite ?weight_cons, ?capacity_cons; simpl; unfold weight, capacity; simpl;
    (split; [|split]); try done; lia.
Qed.

Lemma blocks_loop_total a b b2j fuel : ∀ queue acc,
  Forall range_ok queue → weight queue ≤ fuel →
  ∃ r, blocks_loop a b b2j fuel queue acc = Some r ∧ total r ≤ total acc + capacity queue.
Proof.
  induction fuel as [|fuel IH]; intros queue acc Hq Hw.
  - destruct queue as [|[[[alo ahi] blo] bhi] queue].
    + exists acc. split; [done|lia].
    + rewrite weight_cons in Hw. lia.
  - destruct queue as [|[[[alo ahi] blo] bhi] queue].
    { exists acc. split; [done|lia]. }
    rewrite weight_cons in Hw. rewrite capacity_cons. simpl in Hw |- *.
    apply Forall_cons in Hq as [[Ha Hb] Hq]. simpl in Ha, Hb.
    pose proof (find_longest_match_in_range a b b2j alo ahi blo bhi Ha Hb) as Hin.
    destruct (find_longest_match a b b2j alo ahi blo bhi) as [[i j] k].
    destruct (Nat.eqb_spec k 0) as [->|Hk].
    { destruct (IH queue acc Hq) as (r & -> & Hr); [lia|]. exists r. split; [done|lia]. }
    destruct (pushed_facts alo ahi blo bhi i j k Hin Hk) as (Hp1 & Hp2 & Hp3).
    rewrite (app_assoc _ _ queue). fold (pushed alo ahi blo bhi i j k).
    destruct (IH (pushed alo ahi blo bhi i j k ++ queue) (acc ++ [(i, j, k)]))
      as (r & Hr & Hsum).
    + by apply Forall_app.
    + rewrite weight_app. lia.
    + exists r. split; [done|].
      rewrite total_app, capacity_app in Hsum. unfold total at 3 in Hsum.
      simpl in Hsum. unfold size in Hsum. simpl in Hsum. lia.
Qed.

Lemma raw_blocks_spec a b :
  blocks_loop a b (chain_b b) (queue_fuel a) [(0, length a, 0, length b)] []
    = Some (raw_blocks a b) ∧
  total (raw_blocks a b) ≤ length a `min` length b.
Proof.
  unfold raw_blocks.
  destruct (blocks_loop_total a b (chain_b b) (queue_fuel a)
              [(0, length a, 0, length b)] []) as (r & -> & Hr).
  - apply Forall_singleton. unfold range_ok; simpl; lia.
  - rewrite weight_cons. unfold queue_fuel, weight; simpl; lia.
  - split; [done|]. rewrite capacity_cons in Hr.
    change (capacity []) with 0 in Hr. change (total []) with 0 in Hr.
    simpl in Hr |- *. lia.
Qed.

Lemma total_cons m ms : total (m :: ms) = m.2 + total ms.
Proof. done. Qed.

Lemma collapse_total blocks : ∀ cur acc,
  total (collapse blocks cur acc).2 + size (collapse blocks cur acc).1
    = total acc + size cur + total blocks.
Proof.
  induction blocks as [|[[i2 j2] k2] blocks IH]; intros [[i1 j1] k1] acc.
  - change (total []) with 0. simpl. lia.
  - rewrite total_cons. simpl. destruct (_ && _); rewrite IH; unfold size; simpl; [lia|].
    destruct (Nat.eqb_spec k1 0) as [->|]; [lia|].
    rewrite total_app, total_cons. change (total []) with 0. simpl. lia.
Qed.

Lemma total_Permutation ms1 ms2 : ms1 ≡ₚ ms2 → total ms1 = total ms2.
Proof. unfold total. induction 1; simpl; lia. Qed.

Lemma matches_raw a b : matches a b = total (raw_blocks a b).
Proof.
  unfold matches, get_matching_blocks.
  pose proof (collapse_total (merge_sort match_le (raw_blocks a b)) (0, 0, 0) []) as Hc.
  destruct (collapse _ _ _) as [[[i1 j1] k1] na].
  rewrite (total_Permutation _ _ (merge_sort_Permutation match_le (raw_blocks a b))) in Hc.
  change (foldr _ 0 ?l) with (total l).
  change (total []) with 0 in Hc. unfold size in Hc; simpl in Hc.
  destruct (Nat.eqb_spec k1 0) as [->|];
    rewrite !total_app, !total_cons; change (total []) with 0; simpl; lia.
Qed.

Lemma matches_le a b : matches a b ≤ length a `min` length b.
Proof. rewrite matches_raw. apply raw_blocks_spec. Qed.

Lemma Zpos_of_nat n : n ≠ 0 → Z.pos (Pos.of_nat n) = Z.of_nat n.
Proof.
  destruct n as [|n]; [done|]. intros _.
  rewrite <- Pos.of_nat_succ, Zpos_P_of_succ_nat. lia.
Qed.

(** The score is a number between 0 and 1. *)
Lemma ratio_bounds a b : (0 <= ratio a b)%Q ∧ (ratio a b <= 1)%Q.
Proof.
  unfold ratio, calculate_ratio. pose proof (matches_le a b) as Hm.
  destruct (Nat.eqb_spec (length a + length b) 0) as [E|E].
  - split; unfold Qle; simpl; lia.
  - split; unfold Qle; simpl Qnum; simpl Qden; rewrite ?Zpos_of_nat by done; lia.
Qed.
End Bounds.

Section Index.
Context {A : Type} `{Countable A}.
Implicit Types (b l : list A) (x y : A).

(** The indices at which [x] occurs in [l], in increasing order. *)
Definition positions (x : A) (l : list A) : list nat :=
  filter (λ j, l !! j = Some x) (seq 0 (length l)).

Lemma filter_ext_in {B : Type} (P Q : B → Prop)
    `{!∀ z, Decision (P z), !∀ z, Decision (Q z)} (l : list B) :
  (∀ z, z ∈ l → P z ↔ Q z) → filter P l = filter Q l.
Proof.
  induction l as [|z l IH]; intros HPQ; [done|].
  rewrite !filter_cons.
  rewrite IH by (intros z' Hz'; apply HPQ; by right).
  destruct (decide (P z)) as [HP|HP]; destruct (decide (Q z)) as [HQ|HQ]; try done.
  - apply HPQ in HP; [done|by left].
  - apply HPQ in HQ; [done|by left].
Qed.

Lemma positions_snoc x l y :
  positions x (l ++ [y]) = positions x l ++ (if decide (y = x) then [length l] else []).
Proof.
  unfold positions. rewrite length_app. simpl. rewrite Nat.add_1_r, seq_S, filter_app. simpl.
  f_equal.
  - apply filter_ext_in. intros j Hj. apply elem_of_seq in Hj.
    rewrite lookup_app_l by lia. done.
  - rewrite filter_cons, filter_nil, list_lookup_middle by done.
    destruct (decide (Some y = Some x)) as [E|E]; destruct (decide (y = x)) as [E'|E'];
      congruence.
Qed.

Lemma elem_of_positions x l j : j ∈ positions x l ↔ l !! j = Some x.
Proof.
  unfold positions. rewrite list_elem_of_filter, elem_of_seq. split; [tauto|].
  intros Hj. split; [done|]. apply lookup_lt_Some in Hj. lia.
Qed.

Lemma positions_not_elem x l : x ∉ l → positions x l = [].
Proof.
  intros Hx. destruct (positions x l) as [|j js] eqn:E; [done|].
  assert (j ∈ positions x l) as Hj by (rewrite E; by left).
  apply elem_of_positions, list_elem_of_lookup_2 in Hj. done.
Qed.

(** The elements of [positions x l] before index [i] are below [i]. *)
Lemma positions_split x l i :
  l !! i = Some x →
  ∃ js1 js2 : list nat, positions x l = js1 ++ i :: js2 ∧ Forall (λ j, j < i) js1.
Proof.
  intros Hi. pose proof (lookup_lt_Some _ _ _ Hi) as Hlt.
  exists (filter (λ j, l !! j = Some x) (seq 0 i)),
         (filter (λ j, l !! j = Some x) (seq (S i) (length l - S i))).
  split.
  - unfold positions.
    replace (length l) with (i + S (length l - S i)) at 1 by lia.
    rewrite seq_app, filter_app. simpl. by rewrite filter_cons_True.
  - apply Forall_forall. intros j Hj.
    apply list_elem_of_filter in Hj as [_ Hj]. apply elem_of_seq in Hj. lia.
Qed.

Lemma index_elements_lookup l x :
  index_elements l !! x = if decide (x ∈ l) then Some (positions x l) else None.
Proof.
  induction l as [|y l IH] using rev_ind.
  - unfold index_elements. simpl. rewrite lookup_empty.
    destruct (decide (x ∈ [])) as [E|E]; [by apply elem_of_nil in E|done].
  - unfold index_elements in *. rewrite imap_app, fold_left_app. simpl.
    unfold setdefault_append at 1. simpl. rewrite Nat.add_0_r.
    rewrite positions_snoc, lookup_insert.
    destruct (decide (y = x)) as [->|Hne].
    + rewrite IH. destruct (decide (x ∈ l ++ [x])) as [_|E].
      * destruct (decide (x ∈ l)) as [E|E]; simpl; [done|].
        by rewrite positions_not_elem.
      * exfalso. apply E. apply elem_of_app. right. by left.
    + rewrite IH, app_nil_r.
      destruct (decide (x ∈ l)) as [E|E]; destruct (decide (x ∈ l ++ [y])) as [E'|E'];
        try done.
      * exfalso. apply E'. apply elem_of_app. by left.
      * exfalso. apply elem_of_app in E' as [E'|E']; [done|].
        apply list_elem_of_singleton in E'. done.
Qed.

(** What [b2j.get(x, nothing)] delivers: all positions of [x], or nothing
    for an element that is absent or popular. *)
Lemma chain_b_lookup b x js :
  chain_b b !! x = Some js → js = positions x b.
Proof.
  unfold chain_b. intros Hjs.
  assert (index_elements b !! x = Some js) as Hi.
  { destruct (200 <=? length b); [|done].
    by apply map_lookup_filter_Some in Hjs as [Hjs _]. }
  rewrite index_elements_lookup in Hi. by destruct (decide (x ∈ b)); simplify_eq.
Qed.
End Index.

Section Identical.
Context {A : Type} `{Countable A}.
Variable b : list A.

(** [b[i]] is still a key of [b2j] (it is not popular). *)
Definition kept (i : nat) : bool :=
  match b !! i with
  | Some x => bool_decide (is_Some (chain_b b !! x))
  | None => false
  end.

(** Length of the run of kept elements that ends at index [i]. *)
Fixpoint run (i : nat) : nat :=
  match i with
  | 0 => if kept 0 then 1 else 0
  | S i' => if kept (S i') then S (run i') else 0
  end.

(** The same run, seen from the row before [i]. *)
Definition run_before (i : nat) : nat :=
  match i with
  | 0 => 0
  | S i' => run i'
  end.

Lemma run_kept i : kept i = true → run i = S (run_before i).
Proof. destruct i; simpl; by intros ->. Qed.

Lemma run_not_kept i : kept i = false → run i = 0.
Proof. destruct i; simpl; by intros ->. Qed.

Lemma scan_row_app bhi i j2len js1 js2 : ∀ new best,
  Forall (λ j, j < bhi) js1 →
  scan_row 0 bhi i j2len (js1 ++ js2) new best
  = scan_row 0 bhi i j2len js2 (scan_row 0 bhi i j2len js1 new best).1
                               (scan_row 0 bhi i j2len js1 new best).2.
Proof.
  induction js1 as [|j js1 IH]; intros new best Hlt; [done|].
  apply Forall_cons in Hlt as [Hj Hlt]. simpl.
  destruct (Nat.leb_spec bhi j); [lia|]. by apply IH.
Qed.

Lemma scan_row_lookup bhi i j2len js : ∀ new best j,
  Forall (λ j, j < bhi) js →
  (scan_row 0 bhi i j2len js new best).1 !! j
  = if decide (j ∈ js) then Some (j2lenget j2len j + 1) else new !! j.
Proof.
  induction js as [|j0 js IH]; intros new best j Hlt.
  - simpl. destruct (decide (j ∈ [])) as [E|E]; [by apply elem_of_nil in E|done].
  - apply Forall_cons in Hlt as [Hj Hlt]. simpl.
    destruct (Nat.leb_spec bhi j0); [lia|]. rewrite IH by done.
    destruct (decide (j ∈ js)) as [E|E].
    + rewrite decide_True; [done|by right].
    + rewrite lookup_insert. destruct (decide (j0 = j)) as [->|Hne].
      * rewrite decide_True; [done|by left].
      * rewrite decide_False; [done|]. intros [->|?]%elem_of_cons; done.
Qed.

Lemma scan_row_keep bhi i j2len js : ∀ new best,
  Forall (λ j, j < bhi) js →
  Forall (λ j, j2lenget j2len j + 1 ≤ size best) js →
  (scan_row 0 bhi i j2len js new best).2 = best.
Proof.
  induction js as [|j js IH]; intros new best Hlt Hle; [done|].
  apply Forall_cons in Hlt as [Hj Hlt]. apply Forall_cons in Hle as [Hk Hle]. simpl.
  destruct (Nat.leb_spec bhi j); [lia|].
  destruct (Nat.ltb_spec (size best) (j2lenget j2len j + 1)); [lia|]. by apply IH.
Qed.

(** State of the scan of [b] against itself after [i] rows: the best block
    lies on the diagonal. *)
Definition diag_inv (i : nat) (st : gmap nat nat * Match) : Prop :=
  (∀ j k, st.1 !! j = Some k → k ≤ run_before i ∧ k ≤ run j) ∧
  (∀ i', i = S i' → kept i' = true → st.1 !! i' = Some (run i')) ∧
  st.2.1.1 = st.2.1.2 ∧
  (∀ i', i' < i → run i' ≤ size st.2).

Lemma j2lenget_run i j st :
  diag_inv i st → kept i = true → kept j = true →
  j2lenget st.1 j + 1 ≤ run i ∧ j2lenget st.1 j + 1 ≤ run j.
Proof.
  intros (HA & _ & _ & _) Hi Hj. rewrite (run_kept i Hi), (run_kept j Hj).
  destruct j as [|j']; simpl; [lia|].
  destruct (st.1 !! j') as [k|] eqn:E; simpl; [|lia].
  destruct (HA _ _ E). lia.
Qed.

Lemma j2lenget_diag i st :
  diag_inv i st → kept i = true → j2lenget st.1 i + 1 = run i.
Proof.
  intros (HA & HB & _ & _) Hi. rewrite (run_kept i Hi).
  destruct i as [|i']; simpl; [done|].
  destruct (kept i') eqn:Hk.
  - rewrite (HB i' eq_refl Hk). simpl. lia.
  - rewrite (run_not_kept i' Hk).
    destruct (st.1 !! i') as [k|] eqn:E; simpl; [|lia].
    destruct (HA _ _ E) as [_ Hle]. rewrite (run_not_kept i' Hk) in Hle. lia.
Qed.

Lemma scan_step_diag i st :
  i < length b → diag_inv i st →
  diag_inv (S i) (scan_step b (chain_b b) 0 (length b) st i).
Proof.
  intros Hi Hinv. unfold scan_step.
  destruct (b !! i) as [x|] eqn:Hx; [|apply lookup_ge_None in Hx; lia].
  destruct (chain_b b !! x) as [js|] eqn:Hjs; simpl.
  - (* [x] is a key: the row is scanned *)
    assert (kept i = true) as Hki.
    { unfold kept. rewrite Hx, Hjs. apply bool_decide_eq_true. by eexists. }
    apply chain_b_lookup in Hjs as Hpos.
    assert (∀ j, j ∈ js → j < length b ∧ kept j = true) as Hjs_facts.
    { intros j Hj. rewrite Hpos in Hj. apply elem_of_positions in Hj.
      split; [by apply lookup_lt_Some in Hj|].
      unfold kept. rewrite Hj, Hjs. apply bool_decide_eq_true. by eexists. }
    assert (Forall (λ j, j < length b) js) as Hlt.
    { apply Forall_forall. intros j Hj. by apply Hjs_facts. }
    destruct (positions_split x b i Hx) as (js1 & js2 & Hsplit & Hbelow).
    rewrite <- Hpos in Hsplit.
    assert (i ∈ js) as Hin. { rewrite Hsplit. apply elem_of_app. right. by left. }
    pose proof Hinv as (HA & HB & HC & HD).
    assert ((scan_row 0 (length b) i st.1 js ∅ st.2).2
            = if size st.2 <? run i then (i + 1 - run i, i + 1 - run i, run i) else st.2)
      as Hbest.
    { rewrite Hsplit in Hlt |- *. apply Forall_app in Hlt as [Hlt1 Hlt2].
      rewrite scan_row_app by done.
      rewrite (scan_row_keep _ _ _ js1); [|done|].
      2:{ apply Forall_forall. intros j Hj.
          pose proof (proj1 (Forall_forall _ _) Hbelow j Hj) as Hji. simpl in Hji.
          assert (j ∈ js) as Hj' by (rewrite Hsplit; apply elem_of_app; by left).
          destruct (j2lenget_run i j st Hinv Hki) as [_ Hr]; [by apply Hjs_facts|].
          specialize (HD j Hji). lia. }
      apply Forall_cons in Hlt2 as [Hilt Hlt2]. simpl.
      destruct (Nat.leb_spec (length b) i); [lia|].
      rewrite (j2lenget_diag i st Hinv Hki).
      apply scan_row_keep; [done|].
      apply Forall_forall. intros j Hj.
      assert (j ∈ js) as Hj' by (rewrite Hsplit; apply elem_of_app; right; by right).
      destruct (j2lenget_run i j st Hinv Hki) as [Hr _]; [by apply Hjs_facts|].
      destruct (Nat.ltb_spec (size st.2) (run i)); unfold size in *; simpl; lia. }
    split; [|split; [|split]].
    + intros j k. rewrite scan_row_lookup by done.
      destruct (decide (j ∈ js)) as [Hj|Hj]; [|by rewrite lookup_empty].
      intros [= <-]. simpl. apply j2lenget_run; [done|done|by apply Hjs_facts].
    + intros i' [= <-] _. rewrite scan_row_lookup by done.
      rewrite decide_True by done. f_equal. by apply j2lenget_diag.
    + rewrite Hbest. destruct (_ <? _); simpl; [done|apply HC].
    + intros i' Hi'. rewrite Hbest.
      destruct (decide (i' = i)) as [->|Hne].
      * destruct (Nat.ltb_spec (size st.2) (run i)); unfold size in *; simpl; lia.
      * assert (i' < i) as Hlt' by lia. specialize (HD i' Hlt').
        destruct (Nat.ltb_spec (size st.2) (run i)); unfold size in *; simpl; lia.
  - (* [x] is popular: the row is skipped *)
    assert (kept i = false) as Hki.
    { unfold kept. rewrite Hx, Hjs. apply bool_decide_eq_false. by intros [? ?]. }
    destruct Hinv as (HA & HB & HC & HD).
    split; [|split; [|split]].
    + intros j k E. simpl in E. by rewrite ?lookup_empty in E.
    + intros i' [= <-]. by rewrite Hki.
    + done.
    + intros i' Hi'. destruct (decide (i' = i)) as [->|Hne].
      * rewrite (run_not_kept i Hki). lia.
      * apply HD. lia.
Qed.

Lemma scan_diag n :
  n ≤ length b →
  diag_inv n (fold_left (scan_step b (chain_b b) 0 (length b)) (seq 0 n) (∅, (0, 0, 0))).
Proof.
  induction n as [|n IH]; intros Hn.
  - simpl. split; [|split; [|split]]; try done; lia.
  - rewrite seq_S, fold_left_app. simpl. apply scan_step_diag; [lia|]. apply IH. lia.
Qed.

Lemma junk_at_false (l : list A) j : junk_at l j = false.
Proof.
  unfold junk_at, isbjunk, bjunk. destruct (l !! j); [|done].
  apply bool_decide_eq_false. apply not_elem_of_empty.
Qed.

Lemma same_elt_diag i : i < length b → same_elt b b i i = true.
Proof.
  intros Hi. unfold same_elt.
  destruct (lookup_lt_is_Some_2 b i Hi) as [x ->]. by apply bool_decide_eq_true.
Qed.

Lemma extend_left_junk (a l : list A) alo blo besti bestj bestsize :
  extend_left a l true alo blo besti bestj bestsize = (besti, bestj, bestsize).
Proof.
  destruct besti as [|i']; [done|]. destruct bestj as [|j']; [done|]. simpl.
  by rewrite junk_at_false, !andb_false_r.
Qed.

Lemma extend_right_junk (a l : list A) ahi bhi besti bestj room bestsize :
  extend_right a l true ahi bhi besti bestj room bestsize = bestsize.
Proof.
  destruct room as [|room]; [done|]. simpl.
  by rewrite junk_at_false, !andb_false_r.
Qed.

Lemma extend_junk (a l : list A) alo ahi blo bhi m :
  extend a l true alo ahi blo bhi m = m.
Proof.
  unfold extend. rewrite extend_left_junk, extend_right_junk. by destruct m as [[? ?] ?].
Qed.

Lemma extend_left_diag i : ∀ bestsize,
  i ≤ length b → extend_left b b false 0 0 i i bestsize = (0, 0, bestsize + i).
Proof.
  induction i as [|i IH]; intros bestsize Hi; simpl.
  - by rewrite Nat.add_0_r.
  - rewrite junk_at_false, same_elt_diag by lia. simpl.
    rewrite IH by lia. f_equal. lia.
Qed.

Lemma extend_right_diag room : ∀ bestsize,
  bestsize + room ≤ length b →
  extend_right b b false (length b) (length b) 0 0 room bestsize = bestsize + room.
Proof.
  induction room as [|room IH]; intros bestsize Hle; simpl; [lia|].
  destruct (Nat.ltb_spec bestsize (length b)); [|lia].
  rewrite junk_at_false, same_elt_diag by lia. simpl.
  rewrite IH by lia. lia.
Qed.

(** Searching [b] in itself finds the whole of it. *)
Lemma find_longest_match_self :
  find_longest_match b b (chain_b b) 0 (length b) 0 (length b) = (0, 0, length b).
Proof.
  unfold find_longest_match. rewrite extend_junk. unfold scan. rewrite Nat.sub_0_r.
  pose proof (scan_diag (length b) (le_n _)) as (_ & _ & Hdiag & _).
  pose proof (scan_ok b (chain_b b) 0 (length b) 0 (length b) (length b)) as [_ Hin];
    [lia|lia|].
  destruct (fold_left _ _ _) as [j2len [[bi bj] bs]]. simpl in Hdiag. subst bj.
  unfold in_range in Hin. simpl in Hin.
  unfold extend. simpl. rewrite extend_left_diag by lia.
  rewrite extend_right_diag by lia. f_equal. lia.
Qed.

Lemma raw_blocks_self :
  raw_blocks b b = if length b =? 0 then [] else [(0, 0, length b)].
Proof.
  unfold raw_blocks, queue_fuel. simpl blocks_loop.
  replace (length b + (length b + 0) + 1) with (S (length b + length b)) by lia.
  simpl. rewrite find_longest_match_self.
  destruct (Nat.eqb_spec (length b) 0) as [E|E]; simpl.
  - by destruct (length b + length b).
  - rewrite Nat.ltb_irrefl. simpl. by destruct (length b + length b).
Qed.

Lemma matches_self : matches b b = length b.
Proof.
  rewrite matches_raw, raw_blocks_self.
  destruct (Nat.eqb_spec (length b) 0) as [E|E]; [by rewrite E|].
  rewrite total_cons. simpl. change (total []) with 0. lia.
Qed.

(** [SequenceMatcher(None, b, b).ratio() == 1.0]. *)
Lemma ratio_self : (ratio b b == 1)%Q.
Proof.
  unfold ratio. rewrite matches_self. unfold calculate_ratio.
  destruct (Nat.eqb_spec (length b + length b) 0) as [E|E]; [reflexivity|].
  unfold Qeq. simpl Qnum. simpl Qden. rewrite Zpos_of_nat by done. lia.
Qed.
End Identical.
End DifflibFacts.

(** ** The world only grows *)

(** [w] after the queries [qs], the log records [ls] and the output lines
    [os] were added to it. *)
Definition grow (qs : list query) (ls : list (level * string)) (os : list out_line)
    (w : world) : world :=
  {| dotenv_key := dotenv_key w; kb_json := kb_json w;
     responses_json := responses_json w;
     validation_results_json := validation_results_json w;
     calls := calls w ++ qs; log := log w ++ ls; stdout := stdout w ++ os |}.

Lemma grow_nil w : grow [] [] [] w = w.
Proof. destruct w. unfold grow. simpl. by rewrite !app_nil_r. Qed.

Lemma grow_grow qs1 ls1 os1 qs2 ls2 os2 w :
  grow qs2 ls2 os2 (grow qs1 ls1 os1 w) = grow (qs1 ++ qs2) (ls1 ++ ls2) (os1 ++ os2) w.
Proof. unfold grow. simpl. by rewrite !app_assoc. Qed.

Lemma logging_eq lv msg w : logging lv msg w = (Ok (), grow [] [(lv, msg)] [] w).
Proof. unfold logging, grow. by rewrite !app_nil_r. Qed.

Lemma print_eq l w : print l w = (Ok (), grow [] [] [l] w).
Proof. unfold print, grow. by rewrite !app_nil_r. Qed.

Lemma create_eq api q w :
  create api q w
  = (match api (calls w) q with Reply c => Ok c | Failure e => Raise e end,
     grow [q] [] [] w).
Proof. unfold create, grow. rewrite !app_nil_r. by destruct (api (calls w) q). Qed.

Lemma bind_eq {A B : Type} (c : M A) (f : A → M B) w :
  (c ≫= f) w = match c w with
               | (Ok a, w') => f a w'
               | (Raise e, w') => (Raise e, w')
               end.
Proof. done. Qed.

Lemma ret_eq {A : Type} (a : A) w : mret (M := M) a w = (Ok a, w).
Proof. done. Qed.

(** What the [except] clause of either [main] does with the exception [e]. *)
Definition report (e : exn) (w : world) : result unit * world :=
  (Ok (), grow [] [(ERROR, "Error in main execution: " +:+ exn_str e)]
               [Text ("An error occurred: " +:+ exn_str e)] w).

Lemma handler_eq e w :
  (logging ERROR ("Error in main execution: " +:+ exn_str e);;
   print (Text ("An error occurred: " +:+ exn_str e))) w = report e w.
Proof. unfold report. by rewrite bind_eq, logging_eq, print_eq, grow_grow. Qed.

Lemma try_except_eq {A : Type} (body : M A) (handler : exn → M A) w :
  try_except body handler w = match body w with
                              | (Ok a, w') => (Ok a, w')
                              | (Raise e, w') => handler e w'
                              end.
Proof. done. Qed.

(** ** The Validator *)
Module ValidatorFacts.
Import Validator.
Section Facts.
Variable api : list query → query → api_outcome.

(** The query of a retry. *)
Definition retry_query (question kb_answer : value) : query :=
  {| q_model := "gpt-4";
     q_system := "You are a careful assistant that prioritizes accuracy over speculation.";
     q_user := retry_prompt question kb_answer;
     q_temperature := 1 # 10 |}.

Definition retry_text (o : api_outcome) : string :=
  match o with
  | Reply content => strip content
  | Failure _ => "Error during retry"
  end.

Definition retry_log (o : api_outcome) : list (level * string) :=
  match o with
  | Reply _ => []
  | Failure e => [(ERROR, "Error in retry: " +:+ exn_str e)]
  end.

Lemma retry_question_eq question kb_answer w :
  retry_question api question kb_answer w
  = (Ok (VStr (retry_text (api (calls w) (retry_query question kb_answer)))),
     grow [retry_query question kb_answer]
          (retry_log (api (calls w) (retry_query question kb_answer))) [] w).
Proof.
  unfold retry_question, try_except. rewrite bind_eq, create_eq.
  fold (retry_query question kb_answer).
  destruct (api (calls w) (retry_query question kb_answer)); simpl.
  - done.
  - by rewrite bind_eq, logging_eq, ret_eq, grow_grow.
Qed.

Lemma Qltb_lt (x y : Q) : Qltb x y = true ↔ (x < y)%Q.
Proof.
  unfold Qltb. rewrite negb_true_iff. split.
  - intros E. apply Qnot_le_lt. intros Hle. apply Qle_bool_iff in Hle. congruence.
  - intros Hlt. destruct (Qle_bool y x) eqn:E; [|done].
    apply Qle_bool_iff in E. by apply Qlt_not_le in Hlt.
Qed.

Lemma Qltb_ge (x y : Q) : Qltb x y = false ↔ (y <= x)%Q.
Proof. unfold Qltb. rewrite negb_false_iff. apply Qle_bool_iff. Qed.

(** [validate_response], branch by branch. *)
Lemma validate_response_eq question model_response kb_answer w :
  validate_response api question model_response kb_answer w =
  if truthy kb_answer
  then match string_similarity model_response kb_answer with
       | Raise e => (Raise e, w)
       | Ok sim =>
           if Qltb sim threshold
           then
             let o := api (calls w) (retry_query question kb_answer) in
             (Ok {| status := RETRY_DIVERGENT; similarity := Some sim;
                    retry_response := VStr (retry_text o) |},
              grow [retry_query question kb_answer] (retry_log o) [] w)
           else (Ok {| status := VALID; similarity := Some sim;
                       retry_response := VNone |}, w)
       end
  else
    let o := api (calls w) (retry_query question VNone) in
    (Ok {| status := RETRY_OUT_OF_DOMAIN; similarity := None;
           retry_response := VStr (retry_text o) |},
     grow [retry_query question VNone] (retry_log o) [] w).
Proof.
  unfold validate_response. destruct (truthy kb_answer).
  - unfold mbind, M_bind, lift.
    destruct (string_similarity model_response kb_answer) as [sim|e]; [|done].
    destruct (Qltb sim threshold); [|done].
    by rewrite retry_question_eq.
  - unfold mbind, M_bind. by rewrite retry_question_eq.
Qed.

Lemma string_similarity_text (r k : string) :
  string_similarity (VStr r) (VStr k)
  = Ok (Difflib.ratio (chars (lower r)) (chars (lower k))).
Proof. done. Qed.

Lemma truthy_VStr (s : string) : truthy (VStr s) = true ↔ s ≠ EmptyString.
Proof.
  simpl. rewrite negb_true_iff. split.
  - intros E ->. by rewrite String.eqb_refl in E.
  - intros Hne. by apply String.eqb_neq.
Qed.

(** The record [validate_all_responses] appends for one response. *)
Definition entry_of (question model_response : value) (v : validation) : dict :=
  {[ "question" := question;
     "original_response" := model_response;
     "validation_result" := VStr (status v);
     "retry_response" := retry_response v ]}.

Definition body_log (question model_response : value) (v : validation)
  : list (level * string) :=
  [ (INFO, "Question: " +:+ fmt question);
    (INFO, "Original Response: " +:+ fmt model_response);
    (INFO, "Validation Status: " +:+ status v) ]
  ++ (if truthy (retry_response v)
      then [(INFO, "Retry Response: " +:+ fmt (retry_response v))] else [])
  ++ [(INFO, dashes)].

Lemma validate_body_eq response results w :
  validate_body api response results w =
  match response !! "question" with
  | None => (Raise (KeyError "question"), w)
  | Some question =>
      match response !! "model_response" with
      | None => (Raise (KeyError "model_response"), w)
      | Some model_response =>
          match validate_response api question model_response
                  (get response "kb_answer") w with
          | (Raise e, w1) => (Raise e, w1)
          | (Ok v, w1) =>
              (Ok (results ++ [entry_of question model_response v]),
               grow [] (body_log question model_response v) [] w1)
          end
      end
  end.
Proof.
  unfold validate_body, getitem. rewrite bind_eq.
  destruct (response !! "question") as [question|]; [|done].
  rewrite ret_eq, bind_eq.
  destruct (response !! "model_response") as [model_response|]; [|done].
  rewrite ret_eq, bind_eq.
  destruct (validate_response api question model_response _ w) as [[v|e] w1]; [|done].
  rewrite bind_eq, logging_eq, bind_eq, logging_eq, bind_eq, logging_eq, bind_eq.
  unfold body_log.
  destruct (truthy (retry_response v)).
  - rewrite logging_eq, bind_eq, logging_eq, ret_eq, !grow_grow. done.
  - rewrite ret_eq, bind_eq, logging_eq, ret_eq, !grow_grow. done.
Qed.

Lemma statuses_distinct :
  VALID ≠ RETRY_DIVERGENT ∧ VALID ≠ RETRY_OUT_OF_DOMAIN
  ∧ RETRY_DIVERGENT ≠ RETRY_OUT_OF_DOMAIN.
Proof. by repeat split. Qed.

(** C1: for a record whose reference answer is a non-empty string, the
    validation result is VALID exactly when the similarity score is at or
    above the threshold 0.8 and RETRY_DIVERGENT exactly when it is strictly
    below; a score equal to 0.8 is VALID; and a record whose model response
    is a text is always classified. *)
Theorem threshold_classification question model_response (kb_answer : string) w :
  kb_answer ≠ EmptyString →
  (∀ v w', validate_response api question model_response (VStr kb_answer) w = (Ok v, w') →
     ∃ sim, string_similarity model_response (VStr kb_answer) = Ok sim
       ∧ similarity v = Some sim
       ∧ (status v = VALID ↔ (threshold <= sim)%Q)
       ∧ (status v = RETRY_DIVERGENT ↔ (sim < threshold)%Q)
       ∧ ((sim == threshold)%Q → status v = VALID))
  ∧ (∀ r, model_response = VStr r →
       ∃ v w', validate_response api question model_response (VStr kb_answer) w
               = (Ok v, w')).
Proof.
  intros Hne. apply truthy_VStr in Hne. split.
  - intros v w'. rewrite validate_response_eq, Hne.
    destruct (string_similarity model_response (VStr kb_answer)) as [sim|e]; [|done].
    destruct (Qltb sim threshold) eqn:E; intros [= <- <-]; exists sim; simpl.
    + apply Qltb_lt in E.
      split; [done|]. split; [done|]. split; [|split].
      * split; [done|]. intros Hle. by apply Qlt_not_le in E.
      * done.
      * intros Heq. rewrite Heq in E. by apply Qlt_irrefl in E.
    + apply Qltb_ge in E.
      split; [done|]. split; [done|]. split; [|split].
      * done.
      * split; [done|]. intros Hlt. by apply Qlt_not_le in Hlt.
      * done.
  - intros r ->. rewrite validate_response_eq, Hne, string_similarity_text.
    destruct (Qltb _ threshold); eauto.
Qed.

Lemma snoc_ne {X : Type} (l : list X) (x : X) : l ++ [x] ≠ l.
Proof. intros E. apply (f_equal length) in E. rewrite length_app in E. simpl in E. lia. Qed.

(** C8: a record without reference answer is classified
    RETRY_OUT_OF_DOMAIN, exactly one retry query is issued, and its
    retry_response is a string: the stripped text of the retry model or,
    when the retry call fails, the placeholder "Error during retry", the
    failure being logged and not raised. *)
Theorem probe_out_of_domain question model_response kb_answer w :
  truthy kb_answer = false →
  let o := api (calls w) (retry_query question VNone) in
  ∃ v w', validate_response api question model_response kb_answer w = (Ok v, w')
    ∧ status v = RETRY_OUT_OF_DOMAIN
    ∧ retry_response v = VStr (retry_text o)
    ∧ retry_response v ≠ VNone
    ∧ calls w' = calls w ++ [retry_query question VNone]
    ∧ match o with
      | Reply content => retry_text o = strip content ∧ log w' = log w
      | Failure e =>
          retry_text o = "Error during retry"
          ∧ log w' = log w ++ [(ERROR, "Error in retry: " +:+ exn_str e)]
      end
    ∧ ∀ (response : dict) results,
        response !! "question" = Some question →
        response !! "model_response" = Some model_response →
        get response "kb_answer" = kb_answer →
        ∃ w'', validate_body api response results w
                 = (Ok (results ++ [entry_of question model_response v]), w'')
          ∧ entry_of question model_response v !! "validation_result"
              = Some (VStr RETRY_OUT_OF_DOMAIN)
          ∧ entry_of question model_response v !! "retry_response"
              = Some (VStr (retry_text o)).
Proof.
  intros Hk o. eexists _, _. rewrite validate_response_eq, Hk. fold o.
  split; [done|]. simpl.
  split; [done|]. split; [done|]. split; [done|]. split; [done|]. split.
  - destruct o; simpl; [by rewrite app_nil_r|done].
  - intros response results Hq Hm Hkb.
    rewrite validate_body_eq, Hq, Hm, Hkb, validate_response_eq, Hk. fold o.
    eexists. split; [done|]. done.
Qed.

(** C10: a VALID result has retry_response None and issues no query; a
    query is issued exactly when the result is RETRY_DIVERGENT or
    RETRY_OUT_OF_DOMAIN, and then it is exactly one retry query. *)
Theorem retry_exactly_when_not_valid question model_response kb_answer w v w' :
  validate_response api question model_response kb_answer w = (Ok v, w') →
  (status v = VALID ∨ status v = RETRY_DIVERGENT ∨ status v = RETRY_OUT_OF_DOMAIN)
  ∧ (status v = VALID → retry_response v = VNone ∧ calls w' = calls w)
  ∧ (status v ≠ VALID → ∃ q, calls w' = calls w ++ [q] ∧ retry_response v ≠ VNone)
  ∧ (calls w' ≠ calls w ↔ status v = RETRY_DIVERGENT ∨ status v = RETRY_OUT_OF_DOMAIN).
Proof.
  rewrite validate_response_eq.
  destruct (truthy kb_answer).
  - destruct (string_similarity model_response kb_answer) as [sim|e]; [|done].
    destruct (Qltb sim threshold); intros [= <- <-]; simpl.
    + split; [auto|]. split; [done|]. split; [eauto|].
      split; [auto|]. intros _. apply snoc_ne.
    + split; [auto|]. split; [done|]. split; [done|].
      split; [done|]. by intros [|].
  - intros [= <- <-]; simpl.
    split; [auto|]. split; [done|]. split; [eauto|].
    split; [auto|]. intros _. apply snoc_ne.
Qed.

Lemma validate_body_type response t results w :
  validate_body api (<["type" := t]> response) results w
  = validate_body api response results w.
Proof. rewrite !validate_body_eq. unfold get. by rewrite !lookup_insert_ne. Qed.

Lemma validate_body_no_type response results w :
  validate_body api (delete "type" response) results w
  = validate_body api response results w.
Proof. rewrite !validate_body_eq. unfold get. by rewrite !lookup_delete_ne. Qed.

(** C9: the validation of a record does not look at its kind tag; a record
    whose kb_answer is absent, None or the empty string is classified
    RETRY_OUT_OF_DOMAIN with no similarity score, whatever its tag and
    whatever its model response. *)
Theorem kb_answer_truthiness_decides (response : dict) results w :
  (∀ t, validate_body api (<["type" := t]> response) results w
        = validate_body api response results w)
  ∧ validate_body api (delete "type" response) results w
    = validate_body api response results w
  ∧ ∀ question model_response,
      response !! "question" = Some question →
      response !! "model_response" = Some model_response →
      response !! "kb_answer" = None ∨ response !! "kb_answer" = Some VNone
        ∨ response !! "kb_answer" = Some (VStr EmptyString) →
      ∃ v w', validate_response api question model_response
                (get response "kb_answer") w = (Ok v, w')
        ∧ status v = RETRY_OUT_OF_DOMAIN
        ∧ similarity v = None
        ∧ validate_body api response results w
          = (Ok (results ++ [entry_of question model_response v]),
             grow [] (body_log question model_response v) [] w').
Proof.
  split; [intros t; apply validate_body_type|].
  split; [apply validate_body_no_type|].
  intros question model_response Hq Hm Hkb.
  assert (truthy (get response "kb_answer") = false) as Hk.
  { unfold get. by destruct Hkb as [-> | [-> | ->]]. }
  rewrite validate_body_eq, Hq, Hm, validate_response_eq, Hk.
  eexists _, _. split; [done|]. by simpl.
Qed.

Lemma validator_init_eq w :
  init w =
  if key_missing (dotenv_key w)
  then (Raise (ValueError "OpenAI API key not found in .env file"), w)
  else match kb_json w with
       | None => (Raise (FileNotFoundError "kb.json"), w)
       | Some _ =>
           match responses_json w with
           | None => (Raise (FileNotFoundError "responses.json"), w)
           | Some rs => (Ok rs, w)
           end
       end.
Proof.
  unfold init, get_dotenv_key. rewrite bind_eq.
  destruct (key_missing (dotenv_key w)); [done|].
  rewrite bind_eq. unfold load_knowledge_base, load_responses.
  destruct (kb_json w); [|done]. by destruct (responses_json w).
Qed.

(** [w] after validation_results.json was written. *)
Definition written (results : list dict) (w : world) : world :=
  {| dotenv_key := dotenv_key w; kb_json := kb_json w;
     responses_json := responses_json w;
     validation_results_json := Some results;
     calls := calls w; log := log w; stdout := stdout w |}.

(** The part of [main] that follows [validate_all_responses]. *)
Definition summary (results : list dict) (w : world) : result unit * world :=
  let done_line := Text "Validation complete. Check run.log for details." in
  match count_retry results with
  | Raise e => report e (grow [] [] [done_line] (written results w))
  | Ok hallucinations =>
      let lines := [done_line; Text (nl +:+ "Summary:"); TotalLine (length results);
                    HallucinationsLine hallucinations] in
      match accuracy (length results) hallucinations with
      | Raise e => report e (grow [] [] lines (written results w))
      | Ok rate => (Ok (), grow [] [] (lines ++ [AccuracyLine rate]) (written results w))
      end
  end.

Lemma validator_main_eq w :
  main api w =
  match init w with
  | (Raise e, w1) => report e w1
  | (Ok responses, w1) =>
      match validate_all_responses api responses w1 with
      | (Raise e, w2) => report e w2
      | (Ok results, w2) => summary results w2
      end
  end.
Proof.
  unfold main. rewrite try_except_eq, bind_eq.
  destruct (init w) as [[responses|e] w1]; [|apply handler_eq].
  rewrite bind_eq.
  destruct (validate_all_responses api responses w1) as [[results|e] w2];
    [|apply handler_eq].
  unfold summary. rewrite bind_eq. unfold write_validation_results at 1.
  fold (written results w2).
  rewrite bind_eq, print_eq, bind_eq. unfold lift at 1.
  destruct (count_retry results) as [h|e]; [|apply handler_eq].
  rewrite bind_eq, print_eq, bind_eq, print_eq, bind_eq, print_eq, bind_eq.
  unfold lift.
  destruct (accuracy (length results) h) as [rate|e].
  - by rewrite print_eq, !grow_grow.
  - rewrite handler_eq, !grow_grow. done.
Qed.

Lemma string_similarity_bounds str1 str2 sim :
  string_similarity str1 str2 = Ok sim → (0 <= sim)%Q ∧ (sim <= 1)%Q.
Proof.
  destruct str1 as [|r]; [done|]. destruct str2 as [|k]; [done|].
  intros [= <-]. apply DifflibFacts.ratio_bounds.
Qed.

(** What the result of [validate_response] looks like for a given
    reference answer. *)
Definition validation_ok (kb_answer : value) (v : validation) : Prop :=
  if truthy kb_answer
  then ∃ sim, similarity v = Some sim ∧ (0 <= sim)%Q ∧ (sim <= 1)%Q
         ∧ status v = (if Qltb sim threshold then RETRY_DIVERGENT else VALID)
  else similarity v = None ∧ status v = RETRY_OUT_OF_DOMAIN.

Lemma validate_response_ok question model_response kb_answer w v w' :
  validate_response api question model_response kb_answer w = (Ok v, w') →
  validation_ok kb_answer v.
Proof.
  rewrite validate_response_eq. unfold validation_ok.
  destruct (truthy kb_answer).
  - destruct (string_similarity model_response kb_answer) as [sim|e] eqn:Es; [|done].
    apply string_similarity_bounds in Es as [? ?].
    destruct (Qltb sim threshold) eqn:E; intros [= <- <-]; exists sim; simpl;
      by rewrite ?E.
  - by intros [= <- <-].
Qed.

(** [e] is the validation record of [response]. *)
Definition validates (response e : dict) : Prop :=
  ∃ question model_response v,
    response !! "question" = Some question
    ∧ response !! "model_response" = Some model_response
    ∧ validation_ok (get response "kb_answer") v
    ∧ e = entry_of question model_response v.

Lemma for_each_validate responses : ∀ acc w results w',
  for_each responses (validate_body api) acc w = (Ok results, w') →
  ∃ new, results = acc ++ new ∧ Forall2 validates responses new.
Proof.
  induction responses as [|response responses IH]; intros acc w results w'.
  - intros [= <- <-]. exists []. by rewrite app_nil_r.
  - simpl. rewrite bind_eq, validate_body_eq.
    destruct (response !! "question") as [question|] eqn:Hq; [|done].
    destruct (response !! "model_response") as [model_response|] eqn:Hm; [|done].
    destruct (validate_response api question model_response _ w) as [[v|e] w1] eqn:Hv;
      [|done].
    intros Hrest. apply IH in Hrest as (new & -> & Hall).
    exists (entry_of question model_response v :: new).
    split; [by rewrite <- app_assoc|].
    constructor; [|done].
    exists question, model_response, v. repeat split; try done.
    by apply validate_response_ok in Hv.
Qed.

Definition entry_keys : gset string :=
  {[ "question"; "original_response"; "validation_result"; "retry_response" ]}.

Lemma entry_of_dom question model_response v :
  dom (entry_of question model_response v) = entry_keys.
Proof.
  unfold entry_of, entry_keys. rewrite !dom_insert_L, dom_singleton_L. set_solver.
Qed.

Lemma entry_of_no_score question model_response v :
  entry_of question model_response v !! "similarity_score" = None
  ∧ entry_of question model_response v !! "similarity" = None.
Proof. done. Qed.

(** C4, as the code has it: the records written to
    validation_results.json have exactly the four fields question,
    original_response, validation_result and retry_response, one record per
    response; the similarity score is a field of the intermediate result
    of [validate_response] only, where it is a number in [0,1] when the
    reference answer is a non-empty string and None otherwise. *)
Theorem persisted_record_fields responses w results w' :
  validate_all_responses api responses w = (Ok results, w') →
  length results = length responses
  ∧ Forall (λ e : dict, dom e = entry_keys
              ∧ e !! "similarity_score" = None ∧ e !! "similarity" = None) results
  ∧ Forall2 validates responses results
  ∧ (∀ w0, init w0 = (Ok responses, w) →
       validation_results_json (main api w0).2 = Some results)
  ∧ ∀ question model_response kb_answer w1 v w2,
      validate_response api question model_response kb_answer w1 = (Ok v, w2) →
      match similarity v with
      | Some sim => truthy kb_answer = true ∧ (0 <= sim)%Q ∧ (sim <= 1)%Q
      | None => truthy kb_answer = false
      end.
Proof.
  intros Hall. unfold validate_all_responses in Hall.
  pose proof Hall as Hrun.
  apply for_each_validate in Hall as (new & -> & Hall).
  change ([] ++ new) with new in *.
  split; [symmetry; by eapply Forall2_length|].
  split; [|split; [done|split]].
  - clear Hrun. induction Hall as [|response e responses new (q & mr & v & _ & _ & _ & ->) _ IH];
      constructor; [|done].
    split; [apply entry_of_dom|apply entry_of_no_score].
  - intros w0 Hinit. rewrite validator_main_eq, Hinit. unfold validate_all_responses.
    rewrite Hrun. unfold summary, report.
    destruct (count_retry new) as [h|e]; [destruct (accuracy (length new) h)|]; done.
  - intros question model_response kb_answer w1 v w2 Hv.
    apply validate_response_ok in Hv. unfold validation_ok in Hv.
    destruct (truthy kb_answer).
    + destruct Hv as (sim & -> & ? & ? & _). done.
    + by destruct Hv as [-> _].
Qed.

(** Validation only adds queries and log records to the world. *)
Lemma validate_response_grows question model_response kb_answer w r w' :
  validate_response api question model_response kb_answer w = (r, w') →
  ∃ qs ls, w' = grow qs ls [] w.
Proof.
  rewrite validate_response_eq.
  destruct (truthy kb_answer).
  - destruct (string_similarity model_response kb_answer) as [sim|e].
    + destruct (Qltb sim threshold); intros [= <- <-]; eauto.
      exists [], []. by rewrite grow_nil.
    + intros [= <- <-]. exists [], []. by rewrite grow_nil.
  - intros [= <- <-]; eauto.
Qed.

Lemma validate_body_grows response results w r w' :
  validate_body api response results w = (r, w') → ∃ qs ls, w' = grow qs ls [] w.
Proof.
  rewrite validate_body_eq.
  destruct (response !! "question") as [question|];
    [|intros [= <- <-]; exists [], []; by rewrite grow_nil].
  destruct (response !! "model_response") as [model_response|];
    [|intros [= <- <-]; exists [], []; by rewrite grow_nil].
  destruct (validate_response api question model_response _ w) as [[v|e] w1] eqn:Hv;
    apply validate_response_grows in Hv as (qs & ls & ->); intros [= <- <-].
  - rewrite grow_grow. eauto.
  - eauto.
Qed.

Lemma for_each_grows responses : ∀ acc w r w',
  for_each responses (validate_body api) acc w = (r, w') → ∃ qs ls, w' = grow qs ls [] w.
Proof.
  induction responses as [|response responses IH]; intros acc w r w'.
  - intros [= <- <-]. exists [], []. by rewrite grow_nil.
  - simpl. rewrite bind_eq.
    destruct (validate_body api response acc w) as [[acc'|e] w1] eqn:Hb;
      apply validate_body_grows in Hb as (qs & ls & ->).
    + intros Hrest. apply IH in Hrest as (qs' & ls' & ->).
      rewrite grow_grow. eauto.
    + intros [= <- <-]. eauto.
Qed.

(** Either [main] returns normally: every exception is caught. *)
Lemma validator_main_returns w : ∃ w', main api w = (Ok (), w').
Proof.
  rewrite validator_main_eq. unfold report, summary.
  destruct (init w) as [[responses|e] w1]; [|eauto].
  destruct (validate_all_responses api responses w1) as [[results|e] w2]; [|eauto].
  destruct (count_retry results) as [h|e]; [|eauto].
  destruct (accuracy (length results) h); eauto.
Qed.

Lemma for_each_raise pre response rest : ∀ acc w,
  (∀ acc' w1, ∃ e w2, validate_body api response acc' w1 = (Raise e, w2)) →
  ∃ e w', for_each (pre ++ response :: rest) (validate_body api) acc w = (Raise e, w').
Proof.
  intros acc w Hbad. revert acc w.
  induction pre as [|r pre IH]; intros acc w; simpl; rewrite bind_eq.
  - destruct (Hbad acc w) as (e & w2 & ->). eauto.
  - destruct (validate_body api r acc w) as [[acc'|e] w1]; [apply IH|eauto].
Qed.

(** C2, where the code departs from it: a response whose model_response
    is None and whose reference answer is a non-empty string makes
    [string_similarity] raise AttributeError; [validate_all_responses] then
    raises whatever the other responses are, [main] reports the error, and
    validation_results.json is not written. *)
Theorem null_response_aborts pre (r : dict) rest w :
  r !! "model_response" = Some VNone →
  truthy (get r "kb_answer") = true →
  (∃ e w', validate_all_responses api (pre ++ r :: rest) w = (Raise e, w'))
  ∧ (is_Some (r !! "question") →
     validate_all_responses api (r :: rest) w = (Raise no_lower, w))
  ∧ (responses_json w = Some (pre ++ r :: rest) →
     validation_results_json (main api w).2 = validation_results_json w
     ∧ ∃ e, last (stdout (main api w).2)
            = Some (Text ("An error occurred: " +:+ exn_str e))).
Proof.
  intros Hm Hk.
  assert (∀ acc' w1, ∃ e w2, validate_body api r acc' w1 = (Raise e, w2)) as Hbad.
  { intros acc' w1. rewrite validate_body_eq, Hm.
    destruct (r !! "question") as [question|]; [|eauto].
    rewrite validate_response_eq, Hk. simpl. eauto. }
  split; [apply for_each_raise, Hbad|]. split.
  - intros [question Hq]. unfold validate_all_responses. simpl.
    by rewrite bind_eq, validate_body_eq, Hq, Hm, validate_response_eq, Hk.
  - intros Hrs. rewrite validator_main_eq, validator_init_eq, Hrs.
    destruct (key_missing (dotenv_key w)).
    { split; [done|]. exists (ValueError "OpenAI API key not found in .env file").
      unfold report, grow. cbn [snd stdout]. by rewrite last_snoc. }
    destruct (kb_json w).
    2:{ split; [done|]. exists (FileNotFoundError "kb.json").
        unfold report, grow. cbn [snd stdout]. by rewrite last_snoc. }
    destruct (for_each_raise pre r rest [] w Hbad) as (e & w' & Hraise).
    unfold validate_all_responses. rewrite Hraise.
    apply for_each_grows in Hraise as (qs & ls & ->).
    split; [done|]. exists e. unfold report, grow. cbn [snd stdout].
    by rewrite last_snoc.
Qed.
End Facts.
End ValidatorFacts.

(** ** The Responder *)
Module ResponderFacts.
Import AskModel.
Section Facts.
Variable api : list query → query → api_outcome.

(** The query sent for a question. *)
Definition ask (question : string) : query :=
  {| q_model := "gpt-4";
     q_system := "You are a helpful assistant. Answer questions directly and concisely.";
     q_user := question;
     q_temperature := 1 # 10 |}.

(** The [model_response] recorded for an outcome. *)
Definition answer (o : api_outcome) : value :=
  match o with
  | Reply content => VStr (strip content)
  | Failure _ => VNone
  end.

Definition failure_log (o : api_outcome) : list (level * string) :=
  match o with
  | Reply _ => []
  | Failure e => [(ERROR, "Error getting model response: " +:+ exn_str e)]
  end.

(** The outcomes of asking [questions] one after the other, the queries
    [history] having been issued before. *)
Fixpoint outcomes (history : list query) (questions : list string) : list api_outcome :=
  match questions with
  | [] => []
  | q :: qs => api history (ask q) :: outcomes (history ++ [ask q]) qs
  end.

Lemma outcomes_length history questions :
  length (outcomes history questions) = length questions.
Proof. revert history. induction questions; intros history; simpl; by f_equal. Qed.

Lemma outcomes_app questions1 questions2 : ∀ history,
  outcomes history (questions1 ++ questions2)
  = outcomes history questions1
    ++ outcomes (history ++ map ask questions1) questions2.
Proof.
  induction questions1 as [|q qs IH]; intros history; simpl.
  - by rewrite app_nil_r.
  - by rewrite IH, <- app_assoc.
Qed.

Lemma get_model_response_eq question w :
  get_model_response api question w
  = (Ok (answer (api (calls w) (ask question))),
     grow [ask question] (failure_log (api (calls w) (ask question))) [] w).
Proof.
  unfold get_model_response. rewrite try_except_eq, bind_eq, create_eq.
  fold (ask question).
  destruct (api (calls w) (ask question)); simpl; [done|].
  by rewrite bind_eq, logging_eq, ret_eq, grow_grow.
Qed.

Definition kb_record (qa : qa_pair) (response : value) : dict :=
  {[ "question" := VStr (qa_question qa);
     "model_response" := response;
     "type" := VStr "kb_question";
     "kb_answer" := VStr (qa_answer qa) ]}.

Definition edge_record (question : string) (response : value) : dict :=
  {[ "question" := VStr question;
     "model_response" := response;
     "type" := VStr "edge_case";
     "kb_answer" := VNone ]}.

Lemma kb_body_eq qa results w :
  ∃ ls, kb_body api qa results w
        = (Ok (results ++ [kb_record qa (answer (api (calls w) (ask (qa_question qa))))]),
           grow [ask (qa_question qa)] ls [] w)
    ∧ failure_log (api (calls w) (ask (qa_question qa))) ⊆ ls.
Proof.
  unfold kb_body. eexists. rewrite bind_eq, get_model_response_eq. cbv zeta.
  do 4 (rewrite bind_eq, logging_eq). rewrite ret_eq, !grow_grow. split; [done|].
  intros x Hx. apply elem_of_app. by left.
Qed.

Lemma edge_body_eq question results w :
  ∃ ls, edge_body api question results w
        = (Ok (results ++ [edge_record question (answer (api (calls w) (ask question)))]),
           grow [ask question] ls [] w)
    ∧ failure_log (api (calls w) (ask question)) ⊆ ls.
Proof.
  unfold edge_body. eexists. rewrite bind_eq, get_model_response_eq. cbv zeta.
  do 3 (rewrite bind_eq, logging_eq). rewrite ret_eq, !grow_grow. split; [done|].
  intros x Hx. apply elem_of_app. by left.
Qed.

(** A loop whose body asks one question and appends one record. *)
Lemma loop_eq {X : Type} (body : X → list dict → M (list dict))
    (question : X → string) (record : X → value → dict) (xs : list X) :
  (∀ x results w, ∃ ls,
      body x results w
      = (Ok (results ++ [record x (answer (api (calls w) (ask (question x))))]),
         grow [ask (question x)] ls [] w)
      ∧ failure_log (api (calls w) (ask (question x))) ⊆ ls) →
  ∀ acc w, ∃ ls,
    for_each xs body acc w
    = (Ok (acc ++ zip_with (λ x o, record x (answer o)) xs
                    (outcomes (calls w) (map question xs))),
       grow (map ask (map question xs)) ls [] w)
    ∧ ∀ o, o ∈ outcomes (calls w) (map question xs) → failure_log o ⊆ ls.
Proof.
  intros Hbody. induction xs as [|x xs IH]; intros acc w.
  - exists []. simpl. rewrite app_nil_r, grow_nil. split; [done|].
    intros o Ho. by apply elem_of_nil in Ho.
  - simpl. rewrite bind_eq.
    destruct (Hbody x acc w) as (ls1 & -> & Hls1).
    destruct (IH (acc ++ [record x (answer (api (calls w) (ask (question x))))])
                 (grow [ask (question x)] ls1 [] w)) as (ls2 & -> & Hls2).
    exists (ls1 ++ ls2). rewrite grow_grow, <- app_assoc. simpl. split; [done|].
    intros o [->|Ho]%elem_of_cons.
    + intros e He. apply elem_of_app. left. by apply Hls1.
    + intros e He. apply elem_of_app. right. by apply (Hls2 o).
Qed.

Definition questions (kb : list qa_pair) : list string :=
  map qa_question kb ++ edge_cases.

(** The records of a run in which the questions had the outcomes [os]. *)
Definition records (kb : list qa_pair) (os : list api_outcome) : list dict :=
  zip_with (λ qa o, kb_record qa (answer o)) kb (take (length kb) os)
  ++ zip_with (λ q o, edge_record q (answer o)) edge_cases (drop (length kb) os).

Lemma process_questions_eq kb w :
  ∃ ls, process_questions api kb w
        = (Ok (records kb (outcomes (calls w) (questions kb))),
           grow (map ask (questions kb)) ls [] w)
    ∧ ∀ o, o ∈ outcomes (calls w) (questions kb) → failure_log o ⊆ ls.
Proof.
  unfold process_questions, records, questions. rewrite bind_eq.
  destruct (loop_eq (kb_body api) qa_question kb_record kb (kb_body_eq) [] w)
    as (ls1 & -> & Hls1).
  rewrite app_nil_l.
  destruct (loop_eq (edge_body api) id edge_record edge_cases (edge_body_eq)
              (zip_with (λ qa o, kb_record qa (answer o)) kb
                 (outcomes (calls w) (map qa_question kb)))
              (grow (map ask (map qa_question kb)) ls1 [] w))
    as (ls2 & -> & Hls2).
  exists (ls1 ++ ls2). rewrite grow_grow, outcomes_app, map_app, map_id.
  rewrite take_app_length', drop_app_length' by (by rewrite outcomes_length, length_map).
  simpl calls. rewrite app_nil_r. split; [done|].
  intros o [Ho|Ho]%elem_of_app e He; apply elem_of_app.
  - left. by apply (Hls1 o).
  - right. exact (Hls2 o Ho e He).
Qed.

Lemma records_length kb os :
  length os = length kb + 5 → length (records kb os) = length kb + 5.
Proof.
  intros Hos. unfold records.
  rewrite length_app, !length_zip_with, length_take, length_drop, Hos.
  change (length edge_cases) with 5. lia.
Qed.

Lemma records_lookup kb os i question o :
  length os = length kb + 5 →
  questions kb !! i = Some question → os !! i = Some o →
  ∃ r, records kb os !! i = Some r
    ∧ r !! "question" = Some (VStr question)
    ∧ r !! "model_response" = Some (answer o)
    ∧ (r !! "type" = Some (VStr "kb_question")
         ∧ (∃ qa, kb !! i = Some qa ∧ r !! "kb_answer" = Some (VStr (qa_answer qa)))
       ∨ r !! "type" = Some (VStr "edge_case") ∧ length kb ≤ i
         ∧ r !! "kb_answer" = Some VNone).
Proof.
  intros Hos Hq Ho. unfold records, questions in *.
  assert (length (zip_with (λ qa o, kb_record qa (answer o)) kb (take (length kb) os))
          = length kb) as Hlen.
  { rewrite length_zip_with, length_take. lia. }
  apply lookup_app_Some in Hq as [Hq|[Hge Hq]].
  - rewrite list_lookup_fmap in Hq.
    destruct (kb !! i) as [qa|] eqn:Hqa; [|done]. injection Hq as <-.
    pose proof (lookup_lt_Some _ _ _ Hqa) as Hlt.
    exists (kb_record qa (answer o)).
    rewrite lookup_app_l by lia.
    rewrite lookup_zip_with, Hqa, lookup_take_lt, Ho by done. simpl.
    split; [done|]. split; [done|]. split; [done|]. left. split; [done|]. by exists qa.
  - rewrite length_map in Hge, Hq.
    exists (edge_record question (answer o)).
    rewrite lookup_app_r by lia. rewrite Hlen.
    rewrite lookup_zip_with, Hq, lookup_drop.
    replace (length kb + (i - length kb)) with i by lia. rewrite Ho. simpl.
    split; [done|]. split; [done|]. split; [done|]. right. done.
Qed.

(** C7: whatever the outcomes of the model queries are, the Responder
    returns one record for every knowledge-base entry followed by one for
    every probe question, having issued one query per question; the record
    of a query that failed has model_response None and the failure is in
    the log. *)
Theorem single_failure_never_aborts kb w :
  let os := outcomes (calls w) (questions kb) in
  ∃ w', process_questions api kb w = (Ok (records kb os), w')
    ∧ length (records kb os) = length kb + 5
    ∧ calls w' = calls w ++ map ask (questions kb)
    ∧ ∀ i question, questions kb !! i = Some question →
        ∃ o r, os !! i = Some o
          ∧ records kb os !! i = Some r
          ∧ r !! "question" = Some (VStr question)
          ∧ r !! "model_response" = Some (answer o)
          ∧ match o with
            | Reply content => answer o = VStr (strip content)
            | Failure e =>
                answer o = VNone
                ∧ (ERROR, "Error getting model response: " +:+ exn_str e) ∈ log w'
            end.
Proof.
  intros os. destruct (process_questions_eq kb w) as (ls & Hrun & Hls).
  assert (length os = length kb + 5) as Hos.
  { unfold os, questions. by rewrite outcomes_length, length_app, length_map. }
  eexists. split; [exact Hrun|]. split; [by apply records_length|]. split; [done|].
  intros i question Hq.
  destruct (lookup_lt_is_Some_2 os i) as [o Ho].
  { apply lookup_lt_Some in Hq. unfold os. by rewrite outcomes_length. }
  destruct (records_lookup kb os i question o Hos Hq Ho) as (r & Hr & Hrq & Hrm & _).
  exists o, r. repeat (split; [done|]).
  destruct o as [content|e] eqn:Eo; [done|]. split; [done|].
  simpl. apply elem_of_app. right. apply (Hls (Failure e)).
  - rewrite <- Eo in Ho. subst o. by apply list_elem_of_lookup_2 in Ho.
  - by left.
Qed.

Lemma responder_init_eq w :
  init w =
  if key_missing (dotenv_key w)
  then (Raise (ValueError "OpenAI API key not found in .env file"), w)
  else match kb_json w with
       | None =>
           (Raise (Exception
              "kb.json not found. Please ensure the knowledge base file exists."), w)
       | Some kb => (Ok kb, w)
       end.
Proof.
  unfold init, get_dotenv_key. rewrite bind_eq.
  destruct (key_missing (dotenv_key w)); [done|].
  unfold load_knowledge_base. by destruct (kb_json w).
Qed.

(** [w] after responses.json was written. *)
Definition written (results : list dict) (w : world) : world :=
  {| dotenv_key := dotenv_key w; kb_json := kb_json w;
     responses_json := Some results;
     validation_results_json := validation_results_json w;
     calls := calls w; log := log w; stdout := stdout w |}.

Lemma responder_main_eq w :
  main api w =
  match init w with
  | (Raise e, w1) => report e w1
  | (Ok kb, w1) =>
      match process_questions api kb w1 with
      | (Raise e, w2) => report e w2
      | (Ok results, w2) =>
          (Ok (), grow [] [] [Text "Processing complete. Check run.log for details."]
                    (written results w2))
      end
  end.
Proof.
  unfold main. rewrite try_except_eq, bind_eq.
  destruct (init w) as [[kb|e] w1]; [|apply handler_eq].
  rewrite bind_eq.
  destruct (process_questions api kb w1) as [[results|e] w2]; [|apply handler_eq].
  rewrite bind_eq. unfold write_responses at 1. fold (written results w2).
  by rewrite print_eq.
Qed.

Lemma responder_main_returns w : ∃ w', main api w = (Ok (), w').
Proof.
  rewrite responder_main_eq. unfold report.
  destruct (init w) as [[kb|e] w1]; [|eauto].
  destruct (process_questions api kb w1) as [[results|e] w2]; eauto.
Qed.
End Facts.
End ResponderFacts.

(** ** A run in which no query fails *)
Module EndToEnd.
Import Validator.
Section Run.
Variable api : list query → query → api_outcome.
Hypothesis api_replies : ∀ history q, ∃ content, api history q = Reply content.

(** A response whose question and model response are texts. *)
Definition text_record (r : dict) : Prop :=
  ∃ question response,
    r !! "question" = Some (VStr question) ∧ r !! "model_response" = Some (VStr response).

Lemma outcomes_reply history questions :
  Forall (λ o, ∃ content, o = Reply content) (ResponderFacts.outcomes api history questions).
Proof.
  revert history. induction questions as [|q qs IH]; intros history; simpl; constructor.
  - apply api_replies.
  - apply IH.
Qed.

Lemma records_text kb os :
  Forall (λ o, ∃ content, o = Reply content) os →
  Forall text_record (ResponderFacts.records kb os).
Proof.
  intros Hos. unfold ResponderFacts.records. apply Forall_app. split.
  - eapply Forall_zip_with_snd; [|by apply Forall_take].
    apply Forall_forall. intros qa _ o [content ->].
    by exists (qa_question qa), (strip content).
  - eapply Forall_zip_with_snd; [|by apply Forall_drop].
    apply Forall_forall. intros q _ o [content ->].
    by exists q, (strip content).
Qed.

(** Responses that are texts are all validated. *)
Lemma for_each_text responses : ∀ acc w,
  Forall text_record responses →
  ∃ results w', for_each responses (validate_body api) acc w = (Ok results, w').
Proof.
  induction responses as [|r responses IH]; intros acc w Hall; simpl; [by eexists _, _|].
  apply Forall_cons in Hall as [(question & response & Hq & Hm) Hall].
  rewrite bind_eq, ValidatorFacts.validate_body_eq, Hq, Hm,
    ValidatorFacts.validate_response_eq.
  destruct (get r "kb_answer") as [|k]; [by apply IH|].
  rewrite ValidatorFacts.string_similarity_text.
  destruct (truthy (VStr k)); [|by apply IH].
  destruct (Qltb _ threshold); by apply IH.
Qed.

(** The records classified VALID. *)
Definition valid_count (results : list dict) : nat :=
  length (filter (λ e : dict, e !! "validation_result" = Some (VStr VALID)) results).

Lemma entry_of_status question response v :
  ValidatorFacts.entry_of question response v !! "validation_result"
  = Some (VStr (status v)).
Proof. done. Qed.

Lemma count_retry_validated responses results :
  Forall2 ValidatorFacts.validates responses results →
  ∃ hallucinations,
    count_retry results = Ok hallucinations
    ∧ valid_count results + hallucinations = length results.
Proof.
  unfold valid_count. induction 1 as [|r e responses results Hv _ IH]; simpl.
  - by exists 0.
  - destruct IH as (h & -> & Hh).
    destruct Hv as (question & response & v & _ & _ & Hv & ->).
    unfold ValidatorFacts.validation_ok in Hv.
    assert (status v = VALID ∨ status v = RETRY_DIVERGENT ∨ status v = RETRY_OUT_OF_DOMAIN)
      as Hs.
    { destruct (truthy (get r "kb_answer")).
      - destruct Hv as (sim & _ & _ & _ & ->). destruct (Qltb sim threshold); auto.
      - destruct Hv as [_ ->]. auto. }
    unfold is_retry. rewrite filter_cons, !entry_of_status.
    destruct Hs as [-> | [-> | ->]].
    + rewrite decide_True by done. change (contains "RETRY" VALID) with false.
      exists h. split; [done|]. simpl. lia.
    + rewrite decide_False by done.
      change (contains "RETRY" RETRY_DIVERGENT) with true.
      exists (1 + h). split; [done|]. simpl. lia.
    + rewrite decide_False by done.
      change (contains "RETRY" RETRY_OUT_OF_DOMAIN) with true.
      exists (1 + h). split; [done|]. simpl. lia.
Qed.

Lemma validated_questions responses results :
  Forall2 ValidatorFacts.validates responses results →
  (λ e : dict, e !! "question") <$> results = (λ r : dict, r !! "question") <$> responses.
Proof.
  induction 1 as [|r e responses results Hv _ IH]; [done|].
  rewrite !fmap_cons, IH. f_equal.
  destruct Hv as (question & response & v & -> & _ & _ & ->). done.
Qed.

(** When the credential and the knowledge base are there and no query
    fails, the Validator, run after the Responder, writes one record per
    question, in the order of the Responder's records, and its last output
    line is the accuracy [100 * valid / (N + 5)]. *)
Lemma end_to_end_without_failures kb w :
  key_missing (dotenv_key w) = false →
  kb_json w = Some kb →
  let w1 := (AskModel.main api w).2 in
  let w2 := (Validator.main api w1).2 in
  ∃ responses results,
    responses_json w1 = Some responses
    ∧ length responses = length kb + 5
    ∧ validation_results_json w2 = Some results
    ∧ length results = length kb + 5
    ∧ (λ e : dict, e !! "question") <$> results
      = (λ r : dict, r !! "question") <$> responses
    ∧ last (stdout w2)
      = Some (AccuracyLine
                ((Z.of_nat (valid_count results) # Pos.of_nat (length kb + 5)) * 100)%Q).
Proof.
  intros Hkey Hkb w1 w2. subst w1 w2.
  rewrite ResponderFacts.responder_main_eq, ResponderFacts.responder_init_eq, Hkey, Hkb.
  destruct (ResponderFacts.process_questions_eq api kb w) as (ls & Hrun & _).
  rewrite Hrun. cbn [snd].
  set (responses := ResponderFacts.records kb _) in *.
  assert (length responses = length kb + 5) as Hlen.
  { apply ResponderFacts.records_length.
    unfold ResponderFacts.questions.
    by rewrite ResponderFacts.outcomes_length, length_app, length_map. }
  rewrite ValidatorFacts.validator_main_eq, ValidatorFacts.validator_init_eq.
  cbn [dotenv_key kb_json responses_json grow ResponderFacts.written].
  rewrite Hkey, Hkb.
  assert (Forall text_record responses) as Htext
    by apply records_text, outcomes_reply.
  unfold validate_all_responses.
  match goal with
  | |- context [for_each responses (validate_body api) [] ?w0] =>
      destruct (for_each_text responses [] w0 Htext) as (results & w3 & Hval)
  end.
  rewrite Hval.
  apply ValidatorFacts.for_each_validate in Hval as (new & -> & Hall).
  change ([] ++ new) with new in *.
  pose proof (Forall2_length _ _ _ Hall) as Hlen'.
  destruct (count_retry_validated _ _ Hall) as (h & Hcount & Hsum).
  exists responses, new.
  split; [done|]. split; [done|].
  unfold ValidatorFacts.summary. rewrite Hcount. unfold accuracy.
  destruct (Nat.eqb_spec (length new) 0) as [E|_]; [lia|].
  cbn [snd validation_results_json stdout grow ValidatorFacts.written].
  split; [done|]. split; [lia|]. split; [by apply validated_questions|].
  rewrite app_assoc, last_snoc. do 2 f_equal.
  replace (length kb + 5) with (length new) by lia.
  f_equal. f_equal. lia.
Qed.
End Run.
End EndToEnd.

(** ** The two stages together, and concrete runs *)
Module PipelineFacts.
Import Validator.

(** C3, as the code has it: two texts that are equal after case folding,
    in particular a text and itself, have similarity 1.0; the similarity
    of two texts in general depends on their order. *)
Theorem similarity_of_equal_texts (A B : string) :
  lower A = lower B →
  ∃ sim, string_similarity (VStr A) (VStr B) = Ok sim ∧ (sim == 1)%Q.
Proof.
  intros Heq. eexists. split; [apply ValidatorFacts.string_similarity_text|].
  rewrite Heq. apply DifflibFacts.ratio_self.
Qed.

Lemma similarity_of_equal_texts_witness :
  lower "Paris" = lower "PARIS"
  ∧ ∃ sim, string_similarity (VStr "Paris") (VStr "PARIS") = Ok sim ∧ (sim == 1)%Q.
Proof.
  split; [reflexivity|]. apply (similarity_of_equal_texts "Paris" "PARIS"). reflexivity.
Defined.

(** The similarity of "tide" to "diet" is 0.25, that of "diet" to "tide"
    is 0.5. *)
Lemma similarity_not_symmetric :
  ∃ s1 s2,
    string_similarity (VStr "tide") (VStr "diet") = Ok s1
    ∧ string_similarity (VStr "diet") (VStr "tide") = Ok s2
    ∧ ¬ (s1 == s2)%Q.
Proof.
  exists (2 # 8)%Q, (4 # 8)%Q. split; [|split].
  - vm_compute. reflexivity.
  - vm_compute. reflexivity.
  - intros E. vm_compute in E. discriminate E.
Qed.

(** An endpoint that answers "4" to everything. *)
Definition always_4 : list query → query → api_outcome := λ _ _, Reply "4".

(** An endpoint whose first call fails. *)
Definition first_query_fails : list query → query → api_outcome := λ history _,
  match history with
  | [] => Failure (Exception "Connection error.")
  | _ :: _ => Reply "4"
  end.

Definition kb_2plus2 : list qa_pair :=
  [ {| qa_question := "What is 2+2?"; qa_answer := "4" |} ].

(** The world before the Responder runs. *)
Definition fresh_world (key : option string) (kb : option (list qa_pair)) : world :=
  {| dotenv_key := key; kb_json := kb; responses_json := None;
     validation_results_json := None; calls := []; log := []; stdout := [] |}.

(** C5, as the code has it: with a missing credential, knowledge base or
    response file, [main] logs and prints the error and returns normally;
    no query is issued, no file is written, and the exit status is 0, as it
    is for every run. *)
Theorem startup_failure_reported api w :
  (key_missing (dotenv_key w) = true ∨ kb_json w = None →
     ∃ e, AskModel.main api w = report e w)
  ∧ (key_missing (dotenv_key w) = true ∨ kb_json w = None ∨ responses_json w = None →
     ∃ e, Validator.main api w = report e w)
  ∧ (∀ e, calls (report e w).2 = calls w
        ∧ stdout (report e w).2 = stdout w ++ [Text ("An error occurred: " +:+ exn_str e)]
        ∧ log (report e w).2
          = log w ++ [(ERROR, "Error in main execution: " +:+ exn_str e)]
        ∧ responses_json (report e w).2 = responses_json w
        ∧ validation_results_json (report e w).2 = validation_results_json w)
  ∧ exit_status (AskModel.main api) w = 0
  ∧ exit_status (Validator.main api) w = 0.
Proof.
  split; [|split; [|split; [|split]]].
  - intros Hbad. rewrite ResponderFacts.responder_main_eq, ResponderFacts.responder_init_eq.
    destruct (key_missing (dotenv_key w)); [eauto|].
    destruct Hbad as [?| ->]; [done|eauto].
  - intros Hbad. rewrite ValidatorFacts.validator_main_eq, ValidatorFacts.validator_init_eq.
    destruct (key_missing (dotenv_key w)); [eauto|].
    destruct (kb_json w); [|eauto].
    destruct Hbad as [?|[?| ->]]; [done|done|eauto].
  - intros e. unfold report, grow. simpl. by rewrite app_nil_r.
  - unfold exit_status. by destruct (ResponderFacts.responder_main_returns api w) as [w' ->].
  - unfold exit_status. by destruct (ValidatorFacts.validator_main_returns api w) as [w' ->].
Qed.

(** Without a credential both stages end with exit status 0. *)
Lemma missing_credential_exit_zero :
  key_missing (dotenv_key (fresh_world None (Some kb_2plus2))) = true
  ∧ ¬ (exit_status (AskModel.main always_4) (fresh_world None (Some kb_2plus2)) ≠ 0)
  ∧ ¬ (exit_status (Validator.main always_4) (fresh_world None (Some kb_2plus2)) ≠ 0).
Proof. split; [done|]. split; intros Hne; apply Hne; reflexivity. Qed.

(** C6, where the code departs from it: with a knowledge base of one
    entry and a model endpoint whose first call fails, the Responder writes
    six records, and the Validator then raises on the first of them, writes
    no validation record and prints no summary. *)
Theorem failed_query_breaks_end_to_end :
  let w1 := (AskModel.main first_query_fails
               (fresh_world (Some "sk-test") (Some kb_2plus2))).2 in
  let w2 := (Validator.main first_query_fails w1).2 in
  length <$> responses_json w1 = Some 6
  ∧ validation_results_json w2 = None
  ∧ stdout w2
    = [ Text "Processing complete. Check run.log for details.";
        Text "An error occurred: 'NoneType' object has no attribute 'lower'" ].
Proof. vm_compute. done. Qed.

(** A knowledge-base record answered correctly and a probe record. *)
Definition sample_responses : list dict :=
  [ {[ "question" := VStr "What is 2+2?"; "model_response" := VStr "4";
       "type" := VStr "kb_question"; "kb_answer" := VStr "4" ]};
    {[ "question" := VStr "What color is the number 7?"; "model_response" := VStr "4";
       "type" := VStr "edge_case"; "kb_answer" := VNone ]} ].

(** The record of a knowledge-base question whose query failed. *)
Definition failed_response : dict :=
  {[ "question" := VStr "What is 2+2?"; "model_response" := VNone;
     "type" := VStr "kb_question"; "kb_answer" := VStr "4" ]}.

Definition sample_world : world :=
  {| dotenv_key := Some "sk-test"; kb_json := Some kb_2plus2;
     responses_json := Some sample_responses;
     validation_results_json := None; calls := []; log := []; stdout := [] |}.

(** Closes an equation between closed terms by evaluating both sides. *)
Ltac vm_refl :=
  lazymatch goal with
  | |- ?x = ?y => vm_cast_no_check (@eq_refl _ y)
  end.

(** What a run leaves as its value, or an empty default when it raised. *)
Definition value_of {A : Type} (d : A) (r : result A) : A :=
  match r with
  | Ok a => a
  | Raise _ => d
  end.

Definition sample_validation : result (list dict) * world :=
  validate_all_responses always_4 sample_responses sample_world.

Definition sample_results : list dict := value_of [] sample_validation.1.

(** The record written for a knowledge-base question that was classified
    VALID has no similarity_score field. *)
Lemma persisted_record_without_score :
  ∃ e rest,
    validation_results_json (Validator.main always_4 sample_world).2 = Some (e :: rest)
    ∧ e !! "validation_result" = Some (VStr VALID)
    ∧ e !! "similarity_score" = None.
Proof.
  exists (default ∅ (head sample_results)), (tail sample_results).
  split; [|split]; vm_refl.
Qed.

Lemma threshold_classification_witness :
  "abcdef" ≠ EmptyString
  ∧ ∃ v w', validate_response always_4 (VStr "Q") (VStr "abcd") (VStr "abcdef")
              sample_world = (Ok v, w').
Proof.
  split; [discriminate|].
  apply (proj2 (ValidatorFacts.threshold_classification always_4 (VStr "Q") (VStr "abcd")
                  "abcdef" sample_world ltac:(discriminate)) "abcd" eq_refl).
Defined.

(** "abcd" against "abcdef" scores exactly 0.8 and is VALID. *)
Example score_on_threshold_is_valid :
  string_similarity (VStr "abcd") (VStr "abcdef") = Ok threshold
  ∧ validate_response always_4 (VStr "Q") (VStr "abcd") (VStr "abcdef") sample_world
    = (Ok {| status := VALID; similarity := Some threshold; retry_response := VNone |},
       sample_world).
Proof. split; vm_refl. Qed.

Lemma null_response_aborts_witness :
  failed_response !! "model_response" = Some VNone
  ∧ truthy (get failed_response "kb_answer") = true
  ∧ validate_all_responses always_4 (failed_response :: sample_responses) sample_world
    = (Raise no_lower, sample_world).
Proof.
  split; [reflexivity|]. split; [reflexivity|].
  apply (ValidatorFacts.null_response_aborts always_4 [] failed_response
           sample_responses sample_world eq_refl eq_refl).
  by eexists.
Defined.

Lemma persisted_record_fields_witness :
  validate_all_responses always_4 sample_responses sample_world
    = (Ok sample_results, sample_validation.2)
  ∧ length sample_results = length sample_responses
  ∧ Forall (λ e : dict, dom e = ValidatorFacts.entry_keys
              ∧ e !! "similarity_score" = None ∧ e !! "similarity" = None)
      sample_results.
Proof.
  assert (validate_all_responses always_4 sample_responses sample_world
          = (Ok sample_results, sample_validation.2)) as Hrun
    by vm_refl.
  split; [exact Hrun|].
  destruct (ValidatorFacts.persisted_record_fields always_4 sample_responses
              sample_world sample_results sample_validation.2 Hrun) as (Hlen & Hall & _).
  split; [exact Hlen|exact Hall].
Defined.

Lemma probe_out_of_domain_witness :
  truthy VNone = false
  ∧ ∃ v w', validate_response always_4 (VStr "What color is the number 7?")
              (VStr "4") VNone sample_world = (Ok v, w')
      ∧ status v = RETRY_OUT_OF_DOMAIN
      ∧ retry_response v ≠ VNone.
Proof.
  split; [reflexivity|].
  destruct (ValidatorFacts.probe_out_of_domain always_4
              (VStr "What color is the number 7?") (VStr "4") VNone sample_world eq_refl)
    as (v & w' & Hv & Hs & _ & Hr & _).
  by exists v, w'.
Defined.

Definition divergent_validation : result validation * world :=
  validate_response always_4 (VStr "Q") (VStr "I don't know") (VStr "Paris") sample_world.

Definition divergent_result : validation :=
  value_of {| status := EmptyString; similarity := None; retry_response := VNone |}
    divergent_validation.1.

Lemma retry_exactly_when_not_valid_witness :
  validate_response always_4 (VStr "Q") (VStr "I don't know") (VStr "Paris") sample_world
    = (Ok divergent_result, divergent_validation.2)
  ∧ (calls divergent_validation.2 ≠ calls sample_world
     ↔ status divergent_result = RETRY_DIVERGENT
       ∨ status divergent_result = RETRY_OUT_OF_DOMAIN).
Proof.
  assert (validate_response always_4 (VStr "Q") (VStr "I don't know") (VStr "Paris")
            sample_world = (Ok divergent_result, divergent_validation.2)) as Hrun
    by vm_refl.
  split; [exact Hrun|].
  apply (ValidatorFacts.retry_exactly_when_not_valid always_4 (VStr "Q")
           (VStr "I don't know") (VStr "Paris") sample_world _ _ Hrun).
Defined.
End PipelineFacts.
